(** * Sismic statechart model: a shallow embedding of [sismic/model.py] and
      [sismic/testing.py]

    The Python classes become records and inductive types, methods that
    mutate a [StateChart] pass the chart explicitly and return it next to
    their outcome, and raised exceptions are values of [exn]. *)

From Stdlib Require Import String Ascii List Bool Arith Lia QArith.
From Stdlib Require Import NArith Sorted.
Import ListNotations.
Local Close Scope Q_scope.
Local Open Scope string_scope.
Local Open Scope list_scope.

(** ** Exceptions *)

(** The exceptions the two modules can raise.  [InvalidStatechartError] is
    the only class the code raises itself; the others come from the Python
    runtime (a missing dict key, a missing attribute, a bad call). *)
Inductive exn : Type :=
| InvalidStatechartError (msg : string)
| KeyError (key : option string)
| AttributeError (attr : string)
| TypeError (msg : string).

(** Name of the Python class of an exception. *)
Definition exn_class (e : exn) : string :=
  match e with
  | InvalidStatechartError _ => "InvalidStatechartError"
  | KeyError _ => "KeyError"
  | AttributeError _ => "AttributeError"
  | TypeError _ => "TypeError"
  end.

(** Outcome of a call: the raised exception or the returned value. *)
Definition result (A : Type) : Type := (exn + A)%type.

Definition bind {A B : Type} (c : result A) (k : A -> result B) : result B :=
  match c with
  | inl e => inl e
  | inr a => k a
  end.

Notation "x <- c ;; k" := (bind c (fun x => k))
  (at level 61, c at next level, right associativity).
Notation "c ;;; k" := (bind c (fun _ => k))
  (at level 61, right associativity).

(** [for x in l: body x] where the body only raises or falls through. *)
Fixpoint for_each {A : Type} (body : A -> result unit) (l : list A) : result unit :=
  match l with
  | [] => inr tt
  | x :: l' => body x ;;; for_each body l'
  end.

(** Truth value of a name that may be [None]: [None] and the empty string
    are false. *)
Definition truthy (s : option string) : bool :=
  match s with
  | Some s => negb (s =? "")
  | None => false
  end.

(** ** Python dicts with [str] keys, in insertion order *)

Section Dict.
Context {V : Type}.

Definition dict : Type := list (string * V).

(** [d[k]], [None] standing for [KeyError]; also [d.get(k)]. *)
Fixpoint dict_get (d : dict) (k : string) : option V :=
  match d with
  | [] => None
  | (k', v) :: d' => if k' =? k then Some v else dict_get d' k
  end.

(** [k in d]. *)
Definition dict_mem (d : dict) (k : string) : bool :=
  match dict_get d k with
  | Some _ => true
  | None => false
  end.

(** [d[k] = v]: an existing key keeps its place, a new one goes last. *)
Fixpoint dict_set (d : dict) (k : string) (v : V) : dict :=
  match d with
  | [] => [(k, v)]
  | (k', v') :: d' =>
      if k' =? k then (k, v) :: d' else (k', v') :: dict_set d' k v
  end.

(** Lookup of a key that may be [None]: every key of the dict is a [str],
    so [None] is never found. *)
Definition dict_get_key (d : dict) (k : option string) : option V :=
  match k with
  | Some k => dict_get d k
  | None => None
  end.

Definition dict_mem_key (d : dict) (k : option string) : bool :=
  match dict_get_key d k with
  | Some _ => true
  | None => false
  end.
End Dict.

Arguments dict V : clear implicits.

(** ** Events *)

(** Values that end up in the [data] of an event. *)
#[local] Set Warnings "-register-all".
Inductive pyvalue : Type :=
| VNone
| VStr (s : string)
| VEvent (name : string) (data : list (string * pyvalue))
| VDict (items : list (string * pyvalue)).

Record Event : Type := {
  event_name : string;
  event_data : list (string * pyvalue)
}.

Definition value_of_event (e : Event) : pyvalue :=
  VEvent (event_name e) (event_data e).

Definition value_of_optional_event (e : option Event) : pyvalue :=
  match e with
  | Some e => value_of_event e
  | None => VNone
  end.

Definition value_of_optional_str (s : option string) : pyvalue :=
  match s with
  | Some s => VStr s
  | None => VNone
  end.

(** [Event(name, *args, **kwargs)] against the signature
    [__init__(self, name: str, **additional_parameters)]: keyword arguments
    are collected in [data], and any positional argument after [name] is a
    [TypeError]. *)
Definition Event_init (name : string) (args : list pyvalue)
    (additional_parameters : list (string * pyvalue)) : result Event :=
  match args with
  | [] => inr {| event_name := name; event_data := additional_parameters |}
  | _ :: _ =>
      inl (TypeError "__init__() takes 2 positional arguments but 3 were given")
  end.

(** ** States and transitions *)

Record ContractMixin : Type := {
  _preconditions : list string;
  _postconditions : list string;
  _invariants : list string
}.

Definition ContractMixin_init : ContractMixin :=
  {| _preconditions := []; _postconditions := []; _invariants := [] |}.

Record ActionStateMixin : Type := {
  on_entry : option string;
  on_exit : option string
}.

Record Transition : Type := {
  transition_contract : ContractMixin;
  from_state : string;
  to_state : option string;
  event : option string;
  guard : option string;
  action : option string
}.

Definition Transition_init (from_state : string) (to_state event guard action : option string)
  : Transition :=
  {| transition_contract := ContractMixin_init;
     from_state := from_state; to_state := to_state;
     event := event; guard := guard; action := action |}.

Definition internal (t : Transition) : bool :=
  match to_state t with None => true | Some _ => false end.

Definition eventless (t : Transition) : bool :=
  match event t with None => true | Some _ => false end.

(** [Transition.__str__]. *)
Definition Transition_str (t : Transition) : string :=
  let target :=
    if truthy (to_state t) then match to_state t with Some s => s | None => "" end
    else ("[" ++ from_state t ++ "]")%string in
  let ev :=
    if truthy (event t) then ("+" ++ match event t with Some s => s | None => "" end)%string
    else "" in
  (from_state t ++ ev ++ " -> " ++ target)%string.

(** The five state classes.  The mixins a class inherits from are its
    arguments: the contract, the name, the list of outgoing transitions
    ([TransitionStateMixin]), the actions and the list of children
    ([CompositeStateMixin]). *)
Inductive State : Type :=
| BasicState (contract : ContractMixin) (name : string)
    (transitions : list Transition) (actions : ActionStateMixin)
| CompoundState (contract : ContractMixin) (name : string)
    (transitions : list Transition) (actions : ActionStateMixin)
    (children : list string) (initial : option string)
| OrthogonalState (contract : ContractMixin) (name : string)
    (transitions : list Transition) (actions : ActionStateMixin)
    (children : list string)
| HistoryState (contract : ContractMixin) (name : string)
    (initial : option string) (deep : bool)
| FinalState (contract : ContractMixin) (name : string)
    (actions : ActionStateMixin).

Definition BasicState_init (name : string) (on_entry on_exit : option string) : State :=
  BasicState ContractMixin_init name [] {| on_entry := on_entry; on_exit := on_exit |}.

Definition CompoundState_init (name : string) (initial on_entry on_exit : option string) : State :=
  CompoundState ContractMixin_init name [] {| on_entry := on_entry; on_exit := on_exit |} [] initial.

Definition OrthogonalState_init (name : string) (on_entry on_exit : option string) : State :=
  OrthogonalState ContractMixin_init name [] {| on_entry := on_entry; on_exit := on_exit |} [].

Definition HistoryState_init (name : string) (initial : option string) (deep : bool) : State :=
  HistoryState ContractMixin_init name initial deep.

Definition FinalState_init (name : string) (on_entry on_exit : option string) : State :=
  FinalState ContractMixin_init name {| on_entry := on_entry; on_exit := on_exit |}.

Definition state_name (s : State) : string :=
  match s with
  | BasicState _ n _ _ | CompoundState _ n _ _ _ _ | OrthogonalState _ n _ _ _
  | HistoryState _ n _ _ | FinalState _ n _ => n
  end.

Definition class_name (s : State) : string :=
  match s with
  | BasicState _ _ _ _ => "BasicState"
  | CompoundState _ _ _ _ _ _ => "CompoundState"
  | OrthogonalState _ _ _ _ _ => "OrthogonalState"
  | HistoryState _ _ _ _ => "HistoryState"
  | FinalState _ _ _ => "FinalState"
  end.

(** [StateMixin.__repr__]. *)
Definition State_repr (s : State) : string :=
  (class_name s ++ "(" ++ state_name s ++ ")")%string.

Definition isinstance_CompositeStateMixin (s : State) : bool :=
  match s with
  | CompoundState _ _ _ _ _ _ | OrthogonalState _ _ _ _ _ => true
  | _ => false
  end.

Definition isinstance_CompoundState (s : State) : bool :=
  match s with
  | CompoundState _ _ _ _ _ _ => true
  | _ => false
  end.

Definition isinstance_HistoryState (s : State) : bool :=
  match s with
  | HistoryState _ _ _ _ => true
  | _ => false
  end.

(** [s.children]; [None] when the class has no such attribute. *)
Definition children (s : State) : option (list string) :=
  match s with
  | CompoundState _ _ _ _ c _ | OrthogonalState _ _ _ _ c => Some c
  | _ => None
  end.

(** [s.transitions]; [None] when the class has no such attribute. *)
Definition state_transitions (s : State) : option (list Transition) :=
  match s with
  | BasicState _ _ t _ | CompoundState _ _ t _ _ _ | OrthogonalState _ _ t _ _ => Some t
  | _ => None
  end.

(** [s.initial] of a compound or history state. *)
Definition initial_of (s : State) : option string :=
  match s with
  | CompoundState _ _ _ _ _ i | HistoryState _ _ i _ => i
  | _ => None
  end.

(** [s.children.append(child)]: the list object of [s] is extended in
    place. *)
Definition children_append (s : State) (child : string) : option State :=
  match s with
  | CompoundState c n t a ch i => Some (CompoundState c n t a (ch ++ [child]) i)
  | OrthogonalState c n t a ch => Some (OrthogonalState c n t a (ch ++ [child]))
  | _ => None
  end.

(** [s.transitions.append(t)]. *)
Definition transitions_append (s : State) (t : Transition) : option State :=
  match s with
  | BasicState c n ts a => Some (BasicState c n (ts ++ [t]) a)
  | CompoundState c n ts a ch i => Some (CompoundState c n (ts ++ [t]) a ch i)
  | OrthogonalState c n ts a ch => Some (OrthogonalState c n (ts ++ [t]) a ch)
  | _ => None
  end.

(** ** The statechart *)

Record StateChart : Type := {
  chart_name : string;
  description : option string;
  _bootstrap : option string;
  _states : dict State;               (* name -> State object *)
  _parent : dict (option string);     (* name -> parent.name *)
  transitions : list Transition;
  _root : State
}.

(** [StateChart.__init__]. *)
Definition StateChart_init (name : string) (root : State)
    (description bootstrap : option string) : StateChart :=
  {| chart_name := name;
     description := description;
     _bootstrap := bootstrap;
     _states := dict_set [] (state_name root) root;
     _parent := dict_set [] (state_name root) None;
     transitions := [];
     _root := root |}.

(** The [root] property: only the name of the root object is read. *)
Definition root (self : StateChart) : string := state_name (_root self).

Definition with_states (self : StateChart) (states : dict State) : StateChart :=
  {| chart_name := chart_name self; description := description self;
     _bootstrap := _bootstrap self; _states := states; _parent := _parent self;
     transitions := transitions self; _root := _root self |}.

Definition with_parent (self : StateChart) (parent : dict (option string)) : StateChart :=
  {| chart_name := chart_name self; description := description self;
     _bootstrap := _bootstrap self; _states := _states self; _parent := parent;
     transitions := transitions self; _root := _root self |}.

Definition with_transitions (self : StateChart) (ts : list Transition) : StateChart :=
  {| chart_name := chart_name self; description := description self;
     _bootstrap := _bootstrap self; _states := _states self; _parent := _parent self;
     transitions := ts; _root := _root self |}.

(** The [parent] argument of [register_state]: a state object, a name, or
    [None]. *)
Inductive parent_arg : Type :=
| ParentState (parent : State)
| ParentName (parent : string)
| ParentNone.

(** [parent.name if isinstance(parent, StateMixin) else parent]. *)
Definition parent_key (parent : parent_arg) : option string :=
  match parent with
  | ParentState p => Some (state_name p)
  | ParentName n => Some n
  | ParentNone => None
  end.

(** [StateChart.register_state].  The chart that is returned is the chart
    as the call leaves it, also when the call raises. *)
Definition register_state (state : State) (parent : parent_arg) (self : StateChart)
  : result unit * StateChart :=
  if dict_mem (_states self) (state_name state) then
    (inl (InvalidStatechartError
            ("State name " ++ state_name state ++ " is already used!")%string), self)
  else
    let self := with_states self (dict_set (_states self) (state_name state) state) in
    let self := with_parent self (dict_set (_parent self) (state_name state) (parent_key parent)) in
    match dict_get (_parent self) (state_name state) with
    | None => (inl (KeyError (Some (state_name state))), self)
    | Some key =>
        match dict_get_key (_states self) key, key with
        | Some p, Some k =>
            match children_append p (state_name state) with
            | Some p' => (inr tt, with_states self (dict_set (_states self) k p'))
            | None => (inl (AttributeError "children"), self)
            end
        | _, _ => (inl (KeyError key), self)
        end
    end.

(** [StateChart.register_transition]. *)
Definition register_transition (transition : Transition) (self : StateChart)
  : result unit * StateChart :=
  let self := with_transitions self (transitions self ++ [transition]) in
  match dict_get (_states self) (from_state transition) with
  | None => (inl (KeyError (Some (from_state transition))), self)
  | Some s =>
      match transitions_append s transition with
      | Some s' => (inr tt, with_states self (dict_set (_states self) (from_state transition) s'))
      | None => (inl (AttributeError "transitions"), self)
      end
  end.

(** [StateChart.state_for]. *)
Definition state_for (self : StateChart) (name : string) : option State :=
  dict_get (_states self) name.

(** *** Structural queries *)

(** The [while parent:] loop of [ancestors_for].  The loop has no bound of
    its own, so the model takes the number of iterations it may run:
    [None] says that [fuel] iterations were not enough. *)
Fixpoint ancestors_loop (fuel : nat) (parents : dict (option string))
    (parent : option string) (ancestors : list string) : option (result (list string)) :=
  if truthy parent then
    match fuel, parent with
    | S fuel', Some p =>
        let ancestors := ancestors ++ [p] in
        match dict_get parents p with
        | Some parent' => ancestors_loop fuel' parents parent' ancestors
        | None => Some (inl (KeyError (Some p)))
        end
    | _, _ => None
    end
  else Some (inr ancestors).

(** [StateChart.ancestors_for].  [lru_cache] stores the first result per
    argument; on a chart that is no longer modified the stored result is the
    computed one. *)
Definition ancestors_for (fuel : nat) (self : StateChart) (state : string)
  : option (result (list string)) :=
  match dict_get (_parent self) state with
  | Some parent => ancestors_loop fuel (_parent self) parent []
  | None => Some (inl (KeyError (Some state)))
  end.

(** [StateChart.depth_for]. *)
Definition depth_for (fuel : nat) (self : StateChart) (state : string)
  : option (result nat) :=
  match ancestors_for fuel self state with
  | Some (inr ancestors) => Some (inr (length ancestors + 1))
  | Some (inl e) => Some (inl e)
  | None => None
  end.

(** [state in s2_anc]. *)
Definition str_in (s : string) (l : list string) : bool :=
  existsb (String.eqb s) l.

(** [StateChart.least_common_ancestor]; a loop that finds nothing falls off
    the end of the method, which returns [None]. *)
Definition least_common_ancestor (fuel : nat) (self : StateChart) (s1 s2 : string)
  : option (result (option string)) :=
  match ancestors_for fuel self s1 with
  | Some (inr s1_anc) =>
      match ancestors_for fuel self s2 with
      | Some (inr s2_anc) => Some (inr (find (fun state => str_in state s2_anc) s1_anc))
      | Some (inl e) => Some (inl e)
      | None => None
      end
  | Some (inl e) => Some (inl e)
  | None => None
  end.

(** *** Validation *)

(** The conditions [validate] tests, one per rule; each is true when the
    rule is respected. *)

(** C1: [from_state in self._states and (not to_state or to_state in self._states)]. *)
Definition check_C1 (self : StateChart) (t : Transition) : bool :=
  dict_mem (_states self) (from_state t)
  && (negb (truthy (to_state t)) || dict_mem_key (_states self) (to_state t)).

(** C5: not [not event and not guard and not to_state]. *)
Definition check_C5 (t : Transition) : bool :=
  negb (negb (truthy (event t)) && negb (truthy (guard t)) && negb (truthy (to_state t))).

(** C2: the parent of a history state is a [CompoundState]. *)
Definition check_C2 (self : StateChart) (name : string) (state : State) : bool :=
  if isinstance_HistoryState state then
    let parent := match dict_get (_parent self) name with
                  | Some p => p
                  | None => None
                  end in
    match dict_get_key (_states self) parent with
    | Some p => isinstance_CompoundState p
    | None => false
    end
  else true.

(** C4: not [len(state.children) <= 0] on a composite state. *)
Definition check_C4 (state : State) : bool :=
  match children state with
  | Some c => negb (Nat.leb (length c) 0)
  | None => true
  end.

(** C3: not [state.initial and not (state.initial in state.children)] on a
    compound state. *)
Definition check_C3 (state : State) : bool :=
  match state with
  | CompoundState _ _ _ _ c i =>
      negb (truthy i && negb (match i with Some i => str_in i c | None => false end))
  | _ => true
  end.

(** [self._states.get(transition.to_state, self._states[transition.from_state])]:
    the default is evaluated first, and raises when the source is unknown. *)
Definition target_state (self : StateChart) (t : Transition) : result State :=
  match dict_get (_states self) (from_state t) with
  | Some source =>
      match dict_get_key (_states self) (to_state t) with
      | Some target => inr target
      | None => inr source
      end
  | None => inl (KeyError (Some (from_state t)))
  end.

(** C6: a compound target state has a true [initial]. *)
Definition check_C6 (target : State) : bool :=
  negb (isinstance_CompoundState target && negb (truthy (initial_of target))).

(** Body of the first loop over the transitions. *)
Definition validate_transition (self : StateChart) (t : Transition) : result unit :=
  if negb (check_C1 self t) then
    inl (InvalidStatechartError
           ("C1. Transition " ++ Transition_str t ++ " refers to an unknown state")%string)
  else if negb (check_C5 t) then
    inl (InvalidStatechartError
           ("C5. Transition " ++ Transition_str t
            ++ " is an internal, eventless and guardless transition.")%string)
  else inr tt.

(** Body of the loop over [self._states.items()]. *)
Definition validate_state (self : StateChart) (item : string * State) : result unit :=
  let (name, state) := item in
  (if negb (check_C2 self name state) then
     inl (InvalidStatechartError
            ("C2. History state " ++ State_repr state
             ++ " can only be defined in a compound (non-orthogonal) states")%string)
   else inr tt) ;;;
  (if negb (check_C4 state) then
     inl (InvalidStatechartError
            ("C4. Composite state " ++ State_repr state
             ++ " should have at least one child")%string)
   else inr tt) ;;;
  (if negb (check_C3 state) then
     inl (InvalidStatechartError
            ("C3. Initial state of " ++ State_repr state
             ++ " should refer to one of its children")%string)
   else inr tt).

(** Body of the second loop over the transitions. *)
Definition validate_target (self : StateChart) (t : Transition) : result unit :=
  target <- target_state self t ;;
  if negb (check_C6 target) then
    inl (InvalidStatechartError
           ("C6. Compound state " ++ State_repr target
            ++ " has an incoming transition but does not define an initial state.")%string)
  else inr tt.

(** [StateChart.validate]. *)
Definition validate (self : StateChart) : result bool :=
  for_each (validate_transition self) (transitions self) ;;;
  for_each (validate_state self) (_states self) ;;;
  for_each (validate_target self) (transitions self) ;;;
  inr true.

(** A chart respects a rule when every transition, or every state, passes
    the condition of the rule. *)
Definition rule_C1 (self : StateChart) : bool := forallb (check_C1 self) (transitions self).
Definition rule_C5 (self : StateChart) : bool := forallb check_C5 (transitions self).
Definition rule_C2 (self : StateChart) : bool :=
  forallb (fun item => check_C2 self (fst item) (snd item)) (_states self).
Definition rule_C4 (self : StateChart) : bool :=
  forallb (fun item => check_C4 (snd item)) (_states self).
Definition rule_C3 (self : StateChart) : bool :=
  forallb (fun item => check_C3 (snd item)) (_states self).

(** The call raises an [InvalidStatechartError] whose message starts with
    the tag of a rule. *)
Definition raises_tagged {A : Type} (tag : string) (r : result A) : Prop :=
  exists msg, r = inl (InvalidStatechartError msg)
              /\ String.prefix (tag ++ ". ")%string msg = true.

(** ** Step traces *)

Record MicroStep : Type := {
  step_event : option Event;
  step_transition : option Transition;   (* [None] stands for the [[]] the constructor stores *)
  entered_states : list string;
  exited_states : list string
}.

(** [MicroStep.__init__]: an absent or empty argument is stored as [[]]. *)
Definition MicroStep_init (event : option Event) (transition : option Transition)
    (entered_states exited_states : option (list string)) : MicroStep :=
  {| step_event := event;
     step_transition := transition;
     entered_states := match entered_states with Some l => l | None => [] end;
     exited_states := match exited_states with Some l => l | None => [] end |}.

Record MacroStep : Type := {
  time : Q;
  steps : list MicroStep
}.

(** The [event] property of a macro step: the event of the first micro step
    that has one.  An [Event] object is always true. *)
Definition MacroStep_event (m : MacroStep) : option Event :=
  match find (fun step => match step_event step with Some _ => true | None => false end)
             (steps m) with
  | Some step => step_event step
  | None => None
  end.

(** The [transitions] property. *)
Definition MacroStep_transitions (m : MacroStep) : list Transition :=
  flat_map (fun step => match step_transition step with Some t => [t] | None => [] end)
           (steps m).

Definition MacroStep_entered_states (m : MacroStep) : list string :=
  flat_map entered_states (steps m).

Definition MacroStep_exited_states (m : MacroStep) : list string :=
  flat_map exited_states (steps m).

(** ** Stories *)

(** Modelled from the spec: [Story] and [Pause] live in [sismic/stories.py],
    which is not part of the sources at hand.  A story is a sequence of
    events interleaved with pause markers that carry a duration. *)
Inductive story_item : Type :=
| StoryEvent (e : Event)
| Pause (duration : Q).

Definition Story : Type := list story_item.

(** [for x in l: body] where the body updates local variables [s]. *)
Fixpoint for_fold {A S : Type} (body : A -> S -> result S) (l : list A) (s : S) : result S :=
  match l with
  | [] => inr s
  | x :: l' => s' <- body x s ;; for_fold body l' s'
  end.

(** [story.append(Event(name, d))] with the dict [d] passed as a second
    positional argument, as each call inside the loop does. *)
Definition append_event_positional (name : string) (d : list (string * pyvalue))
    (story : Story) : result Story :=
  e <- Event_init name [VDict d] [] ;;
  inr (story ++ [StoryEvent e]).

(** Body of [for microstep in macrostep.steps]. *)
Definition story_of_microstep (macro_event : option Event) (microstep : MicroStep)
    (story : Story) : result Story :=
  story <- for_fold (fun state => append_event_positional "exited" [("state", VStr state)])
                    (exited_states microstep) story ;;
  story <- match step_transition microstep with
           | Some t =>
               append_event_positional "processed"
                 [("source", VStr (from_state t));
                  ("target", value_of_optional_str (to_state t));
                  ("event", value_of_optional_event macro_event)] story
           | None => inr story
           end ;;
  for_fold (fun state => append_event_positional "entered" [("state", VStr state)])
           (entered_states microstep) story.

(** Body of [for macrostep in trace]; the local variables are the story and
    the clock. *)
Definition story_of_macrostep (macrostep : MacroStep) (locals : Story * Q)
  : result (Story * Q) :=
  let (story, clock) := locals in
  let (story, clock) :=
    if negb (Qle_bool (time macrostep) clock)
    then (story ++ [Pause (time macrostep - clock)%Q], time macrostep)
    else (story, clock) in
  story <- match MacroStep_event macrostep with
           | Some ev =>
               append_event_positional "consumed" [("event", value_of_event ev)] story
           | None => inr story
           end ;;
  story <- for_fold (story_of_microstep (MacroStep_event macrostep)) (steps macrostep) story ;;
  inr (story, clock).

(** [sismic.testing.story_from_trace]. *)
Definition story_from_trace (trace : list MacroStep) : result Story :=
  started <- Event_init "started" [] [] ;;
  locals <- for_fold story_of_macrostep trace ([StoryEvent started], 0%Q) ;;
  stopped <- Event_init "stopped" [] [] ;;
  inr (fst locals ++ [StoryEvent stopped]).



(** ** Built charts *)

(** The state names of a chart. *)
Definition registered (self : StateChart) (name : string) : Prop :=
  dict_mem (_states self) name = true.

(** A chart is built by the constructor followed by calls of
    [register_state] and [register_transition] that return; every state is
    registered under a parent that was registered before it. *)
Inductive built : StateChart -> Prop :=
| built_init name root description bootstrap :
    built (StateChart_init name root description bootstrap)
| built_register_state self state parent self' :
    built self ->
    dict_mem_key (_states self) (parent_key parent) = true ->
    register_state state parent self = (inr tt, self') ->
    built self'
| built_register_transition self transition self' :
    built self ->
    register_transition transition self = (inr tt, self') ->
    built self'.

(** No state of the chart has the empty string as its name. *)
Definition nonempty_names (self : StateChart) : Prop :=
  forall name, registered self name -> name <> "".

(** The chain of proper ancestors of a state, nearest parent first: the
    parent of the state, then the parent of that parent, up to the state
    that has no parent. *)
Inductive parent_chain (self : StateChart) : string -> list string -> Prop :=
| parent_chain_root s :
    dict_get (_parent self) s = Some None ->
    parent_chain self s []
| parent_chain_up s p l :
    dict_get (_parent self) s = Some (Some p) ->
    parent_chain self p l ->
    parent_chain self s (p :: l).

(** What the loop of [ancestors_for] collects from [parent] on, as a
    relation: the loop stops at a parent that is not true and reads the
    parent of every name it collects. *)
Inductive walk (parents : dict (option string)) : option string -> list string -> Prop :=
| walk_stop parent :
    truthy parent = false ->
    walk parents parent []
| walk_step p parent' l :
    truthy (Some p) = true ->
    dict_get parents p = Some parent' ->
    walk parents parent' l ->
    walk parents (Some p) (p :: l).

(** What the registration calls maintain: the two mappings have the same
    keys, the root has no parent, every other state has a registered
    parent, and the loop of [ancestors_for] ends from every entry. *)
Record hierarchy (self : StateChart) : Prop := {
  hierarchy_keys : forall k, dict_mem (_parent self) k = dict_mem (_states self) k;
  hierarchy_root : dict_get (_parent self) (root self) = Some None;
  hierarchy_parent : forall k v,
    dict_get (_parent self) k = Some v -> k <> root self ->
    exists p, v = Some p /\ dict_mem (_parent self) p = true;
  hierarchy_walk : forall k v,
    dict_get (_parent self) k = Some v -> exists l, walk (_parent self) v l
}.

(** The state a transition leads to for rule C6: the state registered as
    its [to_state] when there is one, its source state otherwise. *)
Definition effective_target (self : StateChart) (t : Transition) : option State :=
  match dict_get_key (_states self) (to_state t) with
  | Some target => Some target
  | None => dict_get (_states self) (from_state t)
  end.

(** A compound state whose [initial] is [None] or empty. *)
Definition compound_without_initial (s : State) : bool :=
  isinstance_CompoundState s && negb (truthy (initial_of s)).

(** ** Concrete inputs *)

(** The event [Event("go")]. *)
Definition go : Event := {| event_name := "go"; event_data := [] |}.

(** One macro step at time 1.5 with one micro step that exits [A1], fires
    [A1 -> A2] on [go] and enters [A2]. *)
Definition example_trace : list MacroStep :=
  [ {| time := 3 # 2;
       steps := [ MicroStep_init (Some go)
                    (Some (Transition_init "A1" (Some "A2") (Some "go") None None))
                    (Some ["A2"]) (Some ["A1"]) ] |} ].

(** One macro step at time 0 whose only micro step enters the state [A]:
    what an interpreter records when it starts a chart. *)
Definition entering_trace : list MacroStep :=
  [ {| time := 0; steps := [ MicroStep_init None None (Some ["A"]) None ] |} ].

(** The chart of the running example: the orthogonal root [R] contains the
    compound states [A] and [B]; [A] has the children [A1] and [A2], its
    initial state is [A1]; [B] has the child [B1]; one transition leads
    from [A1] to [A2] on [go]. *)
Definition chart_R : StateChart :=
  StateChart_init "example" (OrthogonalState_init "R" None None) None None.

Definition chart_RAB : StateChart :=
  let c := snd (register_state (CompoundState_init "A" (Some "A1") None None)
                               (ParentName "R") chart_R) in
  snd (register_state (CompoundState_init "B" None None None) (ParentName "R") c).

Definition chart_states : StateChart :=
  let c := snd (register_state (BasicState_init "A1" None None) (ParentName "A") chart_RAB) in
  let c := snd (register_state (BasicState_init "A2" None None) (ParentName "A") c) in
  snd (register_state (BasicState_init "B1" None None) (ParentName "B") c).

Definition transition_go : Transition :=
  Transition_init "A1" (Some "A2") (Some "go") None None.

Definition example_chart : StateChart :=
  snd (register_transition transition_go chart_states).

(** A transition whose source is not a state of [example_chart]. *)
Definition transition_dangling : Transition :=
  Transition_init "Z" (Some "A1") (Some "e") None None.

(** A compound state that is going to be registered under its own name. *)
Definition state_X : State := CompoundState_init "X" None None None.

(** [example_chart] with two more transitions: one into the compound state
    [B], which declares no initial state, and one that is internal,
    eventless and guardless. *)
Definition transition_into_B : Transition :=
  Transition_init "A1" (Some "B") (Some "e") None None.

Definition transition_idle : Transition :=
  Transition_init "A2" None None None None.

Definition chart_into_B : StateChart :=
  snd (register_transition transition_into_B example_chart).

Definition chart_idle : StateChart :=
  snd (register_transition transition_idle chart_into_B).

(** A chart whose root has the empty string as its name, with one basic
    state [A] below the root. *)
Definition chart_unnamed_root : StateChart :=
  StateChart_init "unnamed" (CompoundState_init "" None None None) None None.

Definition chart_unnamed : StateChart :=
  snd (register_state (BasicState_init "A" None None) (ParentName "") chart_unnamed_root).

(** The chart in which [state_X] is registered under its own name. *)
Definition chart_own_parent : StateChart :=
  snd (register_state state_X (ParentName "X") chart_R).

(** ** The other methods of the chart *)

(** The argument of [events]: [None], one state name, or a collection of
    state names. *)
Inductive events_arg : Type :=
| AllStates
| OneState (state : string)
| SomeStates (states : list string).

(** [names.add(x)] on a set of strings, kept as a list without
    duplicates. *)
Definition set_add (x : string) (names : list string) : list string :=
  if str_in x names then names else names ++ [x].

(** [sorted(names)] on strings: the order of [str] is the lexicographic
    order on the characters.  The elements of a set are distinct, so the
    sorted list does not depend on the order in which the set is read. *)
Fixpoint insert_sorted (x : string) (l : list string) : list string :=
  match l with
  | [] => [x]
  | y :: l' => if String.leb x y then x :: l else y :: insert_sorted x l'
  end.

Definition sorted (names : list string) : list string :=
  fold_right insert_sorted [] names.

(** The states [events] looks at: all the registered names, the one name,
    or the given names. *)
Definition events_scope (self : StateChart) (state_or_states : events_arg) : list string :=
  match state_or_states with
  | AllStates => map fst (_states self)
  | OneState state => [state]
  | SomeStates states => states
  end.

(** [StateChart.events]. *)
Definition events (self : StateChart) (state_or_states : events_arg) : list string :=
  let states :=
    match state_or_states with
    | AllStates => map fst (_states self)
    | OneState state => [state]
    | SomeStates states => states
    end in
  let names :=
    fold_left
      (fun names transition =>
         match event transition with
         | Some e =>
             if truthy (event transition) && str_in (from_state transition) states
             then set_add e names else names
         | None => names
         end)
      (transitions self) [] in
  sorted names.

(** The [while states_to_consider:] loop of [descendants_for]; as for
    [ancestors_loop], [None] says that [fuel] iterations were not enough. *)
Fixpoint descendants_loop (fuel : nat) (states : dict State)
    (states_to_consider descendants : list string) : option (result (list string)) :=
  match states_to_consider with
  | [] => Some (inr descendants)
  | state :: states_to_consider =>
      match fuel with
      | 0 => None
      | S fuel' =>
          match dict_get states state with
          | None => Some (inl (KeyError (Some state)))
          | Some state =>
              match children state with
              | Some state_children =>
                  let (states_to_consider, descendants) :=
                    fold_left (fun lists child => (fst lists ++ [child], snd lists ++ [child]))
                              state_children (states_to_consider, descendants) in
                  descendants_loop fuel' states states_to_consider descendants
              | None => descendants_loop fuel' states states_to_consider descendants
              end
          end
      end
  end.

(** [StateChart.descendants_for]. *)
Definition descendants_for (fuel : nat) (self : StateChart) (state : string)
  : option (result (list string)) :=
  descendants_loop fuel (_states self) [state] [].

(** The loop of [leaf_for] over the states that are left to look at. *)
Fixpoint leaf_loop (fuel : nat) (self : StateChart) (states todo leaves : list string)
  : option (result (list string)) :=
  match todo with
  | [] => Some (inr leaves)
  | state :: todo =>
      match descendants_for fuel self state with
      | Some (inr descendants) =>
          let keep := negb (existsb (fun descendant => str_in descendant states) descendants) in
          leaf_loop fuel self states todo (if keep then leaves ++ [state] else leaves)
      | Some (inl e) => Some (inl e)
      | None => None
      end
  end.

(** [StateChart.leaf_for]. *)
Definition leaf_for (fuel : nat) (self : StateChart) (states : list string)
  : option (result (list string)) :=
  leaf_loop fuel self states states [].

(** ** Equality and hashing *)

(** [==] on two values that are a [str] or [None]. *)
Definition optional_str_eqb (a b : option string) : bool :=
  match a, b with
  | Some x, Some y => (x =? y)%string
  | None, None => true
  | _, _ => false
  end.

(** [Transition.__eq__] on two transitions: the five fields, not the
    contract. *)
Definition Transition_eq (t other : Transition) : bool :=
  (from_state t =? from_state other)%string
  && optional_str_eqb (to_state t) (to_state other)
  && optional_str_eqb (event t) (event other)
  && optional_str_eqb (guard t) (guard other)
  && optional_str_eqb (action t) (action other).

(** [Transition.__hash__], for a given hash of strings. *)
Definition Transition_hash (hash : string -> Z) (t : Transition) : Z :=
  hash (from_state t).

(** [Event.__eq__] on two events and [Event.__hash__]. *)
Definition Event_eq (e other : Event) : bool :=
  (event_name e =? event_name other)%string.

Definition Event_hash (hash : string -> Z) (e : Event) : Z :=
  hash (event_name e).

(** ** Charts assembled from new states *)

(** A state as its constructor returns it: its lists of children and of
    transitions, when it has them, are empty. *)
Definition new_state (s : State) : bool :=
  match children s with Some (_ :: _) => false | _ => true end
  && match state_transitions s with Some (_ :: _) => false | _ => true end.

(** A built chart whose states were all new when they were handed to the
    chart. *)
Inductive assembled : StateChart -> Prop :=
| assembled_init name root description bootstrap :
    new_state root = true ->
    assembled (StateChart_init name root description bootstrap)
| assembled_register_state self state parent self' :
    assembled self ->
    new_state state = true ->
    dict_mem_key (_states self) (parent_key parent) = true ->
    register_state state parent self = (inr tt, self') ->
    assembled self'
| assembled_register_transition self transition self' :
    assembled self ->
    register_transition transition self = (inr tt, self') ->
    assembled self'.

(** The names recorded with parent [p], in the order of registration. *)
Definition children_of (parents : dict (option string)) (p : string) : list string :=
  map fst (filter (fun entry => optional_str_eqb (snd entry) (Some p)) parents).

(** The transitions of the chart whose source is [s], in the order of
    registration. *)
Definition transitions_from (self : StateChart) (s : string) : list Transition :=
  filter (fun t => (from_state t =? s)%string) (transitions self).

(** [c] is listed among the children of the state registered as [p]. *)
Definition child_of (states : dict State) (p c : string) : Prop :=
  exists s cs, dict_get states p = Some s /\ children s = Some cs /\ In c cs.

(** [d] is reached from [s] by following lists of children, one step at
    least. *)
Inductive descendant_of (states : dict State) : string -> string -> Prop :=
| descendant_child s c :
    child_of states s c -> descendant_of states s c
| descendant_below s c d :
    child_of states s c -> descendant_of states c d -> descendant_of states s d.

(** Rule C6 on a chart: no transition has a compound state without initial
    state as its effective target. *)
Definition rule_C6 (self : StateChart) : bool :=
  forallb (fun t => match effective_target self t with
                    | Some target => check_C6 target
                    | None => true
                    end) (transitions self).

(** What the registration calls maintain on the states and transitions:
    every state is stored under its own name, the names are distinct, a
    recorded parent is a registered state with a list of children, and a
    transition of the chart is in the list of its source state. *)
Record registry (self : StateChart) : Prop := {
  registry_names : forall k s, state_for self k = Some s -> state_name s = k;
  registry_keys : NoDup (map fst (_states self));
  registry_parents : forall k p,
    dict_get (_parent self) k = Some (Some p) ->
    exists ps, state_for self p = Some ps /\ isinstance_CompositeStateMixin ps = true;
  registry_transitions : forall t,
    In t (transitions self) ->
    exists s ts, state_for self (from_state t) = Some s
                 /\ state_transitions s = Some ts /\ In t ts
}.

(** Three charts that break one rule on the states each: a history state
    below the orthogonal root, a compound state without children, and a
    compound state whose initial state is not one of its children. *)
Definition chart_history : StateChart :=
  snd (register_state (HistoryState_init "H" None false) (ParentName "R") chart_R).

Definition chart_childless : StateChart :=
  snd (register_state (CompoundState_init "E" None None None) (ParentName "R") chart_R).

Definition chart_initial : StateChart :=
  let c := snd (register_state (CompoundState_init "A" (Some "Z") None None)
                               (ParentName "R") chart_R) in
  snd (register_state (BasicState_init "A1" None None) (ParentName "A") c).

(** [example_chart] with a transition to a state that is not registered. *)
Definition transition_nowhere : Transition :=
  Transition_init "A1" (Some "Z") (Some "e") None None.

Definition chart_nowhere : StateChart :=
  snd (register_transition transition_nowhere example_chart).

(** The depth of a state as [depth_for] returns it when its loop may run
    once for each registered name; 0 stands for a call that does not
    return a depth. *)
Definition depth (self : StateChart) (s : string) : nat :=
  match depth_for (length (_parent self)) self s with
  | Some (inr n) => n
  | _ => 0
  end.

(** The place of a name in a list of names: the number of names before
    its first occurrence. *)
Fixpoint position (x : string) (l : list string) : nat :=
  match l with
  | [] => 0
  | y :: l' => if (y =? x)%string then 0 else S (position x l')
  end.

(** What holds of the states to consider and of the descendants collected
    so far, at every iteration of the loop of [descendants_for] started from
    [start], when [rank] grows from a state to its children. *)
Record once_each (states : dict State) (rank : string -> nat) (start : string)
    (todo descendants : list string) : Prop := {
  once_descendants : NoDup descendants;
  once_todo : NoDup todo;
  once_pending : forall w c, In w todo -> child_of states w c -> ~ In c descendants;
  once_known : forall w, In w todo -> In w descendants \/ w = start;
  once_rank : forall w, In w todo -> rank start <= rank w;
  once_done : forall d p, In d descendants -> child_of states p d ->
                          (In p descendants \/ p = start) /\ ~ In p todo
}.

(** ** Charts made by calls that return *)

(** A chart is constructed by the constructor followed by calls of
    [register_state] and [register_transition] that return, whatever their
    arguments: [register_state] looks its parent up after it has stored the
    state, and so also returns for a compound or orthogonal state given its
    own name as parent. *)
Inductive constructed : StateChart -> Prop :=
| constructed_init name root description bootstrap :
    constructed (StateChart_init name root description bootstrap)
| constructed_register_state self state parent self' :
    constructed self ->
    register_state state parent self = (inr tt, self') ->
    constructed self'
| constructed_register_transition self transition self' :
    constructed self ->
    register_transition transition self = (inr tt, self') ->
    constructed self'.

(** A state recorded as its own parent. *)
Definition own_parent (self : StateChart) (x : string) : Prop :=
  dict_get (_parent self) x = Some (Some x).

(** [above parents s x]: [x] is [s], or the parent recorded for [s], or the
    parent recorded for that parent, and so on. *)
Inductive above (parents : dict (option string)) : string -> string -> Prop :=
| above_self s : above parents s s
| above_parent s p x :
    dict_get parents s = Some (Some p) ->
    above parents p x ->
    above parents s x.

(** Neither [s] nor a state above [s] is its own parent. *)
Definition no_own_parent_above (self : StateChart) (s : string) : Prop :=
  forall x, above (_parent self) s x -> ~ own_parent self x.

(** What the calls that return maintain, whatever their arguments: the two
    mappings have the same keys, the root has no parent, every other state
    has a registered parent, and every state has a chain of proper
    ancestors unless a state that is its own parent is the state or lies
    above it. *)
Record lineage (self : StateChart) : Prop := {
  lineage_keys : forall k, dict_mem (_parent self) k = dict_mem (_states self) k;
  lineage_root : dict_get (_parent self) (root self) = Some None;
  lineage_parent : forall k v,
    dict_get (_parent self) k = Some v -> k <> root self ->
    exists p, v = Some p /\ dict_mem (_parent self) p = true;
  lineage_chain : forall k v,
    dict_get (_parent self) k = Some v ->
    (exists l, parent_chain self k l)
    \/ (exists x, above (_parent self) k x /\ own_parent self x)
}.

(** The root [R] with the basic state [A] below it, and the compound state
    [X] registered under its own name. *)
Definition chart_A_X : StateChart :=
  let c := snd (register_state (BasicState_init "A" None None) (ParentName "R") chart_R) in
  snd (register_state state_X (ParentName "X") c).

(** A chart in which a leaf is the only state with the empty string as its
    name. *)
Definition chart_unnamed_leaf : StateChart :=
  snd (register_state (BasicState_init "" None None) (ParentName "A") chart_states).

(** ** The pauses of a story *)

(** The pauses [story_from_trace] puts into the story, read off its loop:
    the local variable [time] of the function is [clock]; a macro step
    whose time is greater gives a pause of the difference and moves the
    clock to its time, any other macro step gives no pause and leaves the
    clock. *)
Fixpoint pauses_from (clock : Q) (trace : list MacroStep) : list Q :=
  match trace with
  | [] => []
  | macrostep :: trace' =>
      if negb (Qle_bool (time macrostep) clock)
      then (time macrostep - clock)%Q :: pauses_from (time macrostep) trace'
      else pauses_from clock trace'
  end.

(** * Properties *)

(** ** Story reconstruction *)

Lemma append_event_positional_raises name d story :
  append_event_positional name d story
  = inl (TypeError "__init__() takes 2 positional arguments but 3 were given").
Proof. reflexivity. Qed.

(** C1: [story_from_trace] is not total.  On the trace of one macro step
    that enters a state, the call [Event('entered', {'state': state})]
    passes the dict as a second positional argument and raises
    [TypeError]; no story is returned. *)
Theorem story_from_trace_entering_raises :
  story_from_trace entering_trace
  = inl (TypeError "__init__() takes 2 positional arguments but 3 were given").
Proof. reflexivity. Qed.

(** C4: on the trace of the example, the pause of 1.5 is appended and the
    call [Event('consumed', {'event': macrostep.event})] then raises
    [TypeError]: the story of the example is not produced. *)
Theorem story_from_trace_example_raises :
  story_of_macrostep
    {| time := 3 # 2;
       steps := [ MicroStep_init (Some go)
                    (Some (Transition_init "A1" (Some "A2") (Some "go") None None))
                    (Some ["A2"]) (Some ["A1"]) ] |}
    ([StoryEvent {| event_name := "started"; event_data := [] |}], 0%Q)
  = inl (TypeError "__init__() takes 2 positional arguments but 3 were given")
  /\ story_from_trace example_trace
     = inl (TypeError "__init__() takes 2 positional arguments but 3 were given").
Proof. split; reflexivity. Qed.






(** A trace in which only time passes gives the story of its pauses. *)
Example story_from_trace_pause :
  story_from_trace [ {| time := 3 # 2; steps := [] |} ]
  = inr [ StoryEvent {| event_name := "started"; event_data := [] |};
          Pause (3 # 2);
          StoryEvent {| event_name := "stopped"; event_data := [] |} ].
Proof. reflexivity. Qed.

(** ** The running example *)

Example example_chart_states :
  map fst (_states example_chart) = ["R"; "A"; "B"; "A1"; "A2"; "B1"]
  /\ option_map children (state_for example_chart "A") = Some (Some ["A1"; "A2"])
  /\ option_map state_transitions (state_for example_chart "A1") = Some (Some [transition_go]).
Proof. repeat split. Qed.

Example example_chart_validates : validate example_chart = inr true.
Proof. reflexivity. Qed.

Example example_chart_queries :
  ancestors_for 2 example_chart "A1" = Some (inr ["A"; "R"])
  /\ least_common_ancestor 2 example_chart "A1" "A2" = Some (inr (Some "A"))
  /\ least_common_ancestor 2 example_chart "A1" "B1" = Some (inr (Some "R"))
  /\ depth_for 2 example_chart "A1" = Some (inr 3)
  /\ ancestors_for 1 example_chart "A1" = None.
Proof. repeat split. Qed.

(** ** Dicts *)

Section DictFacts.
Context {V : Type}.
Implicit Types (d : dict V) (k : string) (v : V).

Lemma dict_get_set_eq d k v : dict_get (dict_set d k v) k = Some v.
Proof.
  induction d as [|[k' v'] d IH]; simpl.
  - now rewrite String.eqb_refl.
  - destruct (k' =? k)%string eqn:E; simpl.
    + now rewrite String.eqb_refl.
    + now rewrite E.
Qed.

Lemma dict_get_set_ne d k k' v :
  k <> k' -> dict_get (dict_set d k v) k' = dict_get d k'.
Proof.
  intros Hne. induction d as [|[k0 v0] d IH]; simpl.
  - apply String.eqb_neq in Hne. now rewrite Hne.
  - destruct (k0 =? k)%string eqn:E; simpl.
    + apply String.eqb_eq in E. subst k0.
      apply String.eqb_neq in Hne. now rewrite Hne.
    + destruct (k0 =? k')%string; auto.
Qed.

Lemma dict_mem_set d k k' v :
  dict_mem (dict_set d k v) k' = (k =? k')%string || dict_mem d k'.
Proof.
  unfold dict_mem. destruct (k =? k')%string eqn:E.
  - apply String.eqb_eq in E. subst. now rewrite dict_get_set_eq.
  - apply String.eqb_neq in E. now rewrite dict_get_set_ne.
Qed.

Lemma dict_mem_true d k : dict_mem d k = true <-> exists v, dict_get d k = Some v.
Proof.
  unfold dict_mem. destruct (dict_get d k).
  - split; eauto.
  - split; [discriminate | intros [v H]; discriminate].
Qed.

Lemma dict_mem_false d k : dict_mem d k = false <-> dict_get d k = None.
Proof.
  unfold dict_mem. destruct (dict_get d k); split; congruence.
Qed.

Lemma dict_get_In d k v : dict_get d k = Some v -> In (k, v) d.
Proof.
  induction d as [|[k' v'] d IH]; simpl; [discriminate|].
  destruct (k' =? k)%string eqn:E.
  - apply String.eqb_eq in E. intros [= ->]. subst. now left.
  - auto.
Qed.
End DictFacts.

(** ** Registration *)

Lemma composite_children_append s child :
  isinstance_CompositeStateMixin s = true <-> exists s', children_append s child = Some s'.
Proof.
  destruct s; simpl; split; intros H; eauto; try discriminate;
    destruct H as [s' H]; discriminate.
Qed.

Lemma hosts_transitions_append s t ts :
  state_transitions s = Some ts ->
  exists s', transitions_append s t = Some s'
             /\ state_transitions s' = Some (ts ++ [t])
             /\ state_name s' = state_name s.
Proof.
  destruct s; simpl; intros [= <-]; eauto.
Qed.

Lemma no_transitions_append s t :
  state_transitions s = None -> transitions_append s t = None.
Proof. destruct s; simpl; congruence. Qed.

(** C2, as the code has it: registering a state whose name is already
    registered raises [InvalidStatechartError] (the one exception class of
    the model, with the message [State name ... is already used!]) and
    leaves the chart as it was. *)
Theorem register_state_duplicate state parent self :
  registered self (state_name state) ->
  register_state state parent self
  = (inl (InvalidStatechartError
            ("State name " ++ state_name state ++ " is already used!")%string), self).
Proof.
  unfold registered, register_state. intros ->. reflexivity.
Qed.

Lemma register_state_duplicate_witness :
  registered example_chart "A1"
  /\ register_state (BasicState_init "A1" None None) (ParentName "A") example_chart
     = (inl (InvalidStatechartError "State name A1 is already used!"), example_chart).
Proof.
  split; [reflexivity|].
  apply (register_state_duplicate (BasicState_init "A1" None None)); reflexivity.
Defined.

(** C2, counterexample: the exception raised for a duplicate name is not a
    [DuplicateNameError]. *)
Lemma register_state_duplicate_class :
  registered example_chart "A1"
  /\ ~ (exists e,
          fst (register_state (BasicState_init "A1" None None) (ParentName "A") example_chart)
          = inl e
          /\ exn_class e = "DuplicateNameError").
Proof.
  split; [reflexivity|].
  intros [e [He Hc]]. simpl in He. injection He as <-. discriminate Hc.
Qed.

(** C3, as the code has it: [register_transition] makes no test of its own
    on [from_state].  It first appends the transition to the list of the
    chart, then reads the source state from [_states]: the call returns
    exactly when [from_state] names a registered state that has a list of
    transitions, and then the transition is also the last one of that list,
    every other state being unchanged; when [from_state] is not registered
    the call raises [KeyError] with the transition already in the list of
    the chart. *)
Theorem register_transition_outcome t self :
  let r := register_transition t self in
  transitions (snd r) = transitions self ++ [t]
  /\ _parent (snd r) = _parent self
  /\ (fst r = inr tt <->
      exists s ts, state_for self (from_state t) = Some s /\ state_transitions s = Some ts)
  /\ (forall s ts,
        state_for self (from_state t) = Some s -> state_transitions s = Some ts ->
        exists s', state_for (snd r) (from_state t) = Some s'
                   /\ state_transitions s' = Some (ts ++ [t])
                   /\ forall k, k <> from_state t -> state_for (snd r) k = state_for self k)
  /\ (state_for self (from_state t) = None ->
        fst r = inl (KeyError (Some (from_state t))) /\ _states (snd r) = _states self).
Proof.
  unfold register_transition, state_for; simpl.
  destruct (dict_get (_states self) (from_state t)) as [s|] eqn:Hs.
  - destruct (state_transitions s) as [ts|] eqn:Hts.
    + destruct (hosts_transitions_append s t ts Hts) as (s' & Happ & Hts' & _).
      rewrite Happ; simpl. repeat split; eauto.
      * intros s0 ts0 [= <-] Hts0. rewrite Hts in Hts0. injection Hts0 as <-.
        exists s'. rewrite dict_get_set_eq. repeat split; auto.
        intros k Hk. apply dict_get_set_ne. congruence.
      * discriminate.
      * discriminate.
    + rewrite (no_transitions_append s t Hts); simpl. repeat split; try discriminate.
      * intros (s0 & ts0 & [= <-] & H). congruence.
      * intros s0 ts0 [= <-] H. congruence.
  - simpl. repeat split; try discriminate.
    intros (s0 & ts0 & H & _). discriminate.
Qed.

Lemma register_transition_outcome_witness :
  fst (register_transition transition_go chart_states) = inr tt
  /\ transitions (snd (register_transition transition_go chart_states)) = [transition_go]
  /\ exists s', state_for (snd (register_transition transition_go chart_states)) "A1" = Some s'
                /\ state_transitions s' = Some [transition_go].
Proof.
  destruct (register_transition_outcome transition_go chart_states) as (H1 & _ & H3 & H4 & _).
  split; [|split].
  - apply H3. exists (BasicState_init "A1" None None), []. split; reflexivity.
  - exact H1.
  - destruct (H4 (BasicState_init "A1" None None) []) as (s' & Hs' & Hts & _);
      [reflexivity | reflexivity |].
    exists s'. split; assumption.
Defined.

(** C3, counterexample: a transition whose source is not registered is not
    accepted; the call raises [KeyError]. *)
Lemma register_transition_unknown_source :
  state_for example_chart (from_state transition_dangling) = None
  /\ fst (register_transition transition_dangling example_chart) = inl (KeyError (Some "Z"))
  /\ ~ (fst (register_transition transition_dangling example_chart) = inr tt).
Proof.
  split; [reflexivity|]. split; [reflexivity|]. discriminate.
Qed.

(** C10, as the code has it: with a fresh name, [register_state] stores
    the state and its parent entry and only then reads the parent from
    [_states].  The call returns exactly when the parent names a state that
    has a list of children and that is either a state registered before or
    the new state itself; otherwise it raises [KeyError] or
    [AttributeError], and the state and its parent entry stay in the two
    mappings. *)
Theorem register_state_fresh state parent self :
  dict_mem (_states self) (state_name state) = false ->
  let r := register_state state parent self in
  (fst r = inr tt <->
   exists p, parent_key parent = Some p
     /\ ((p <> state_name state
          /\ exists ps, state_for self p = Some ps /\ isinstance_CompositeStateMixin ps = true)
         \/ (p = state_name state /\ isinstance_CompositeStateMixin state = true)))
  /\ (fst r <> inr tt ->
      _states (snd r) = dict_set (_states self) (state_name state) state
      /\ _parent (snd r) = dict_set (_parent self) (state_name state) (parent_key parent)
      /\ exists e, fst r = inl e
                   /\ (exn_class e = "KeyError" \/ exn_class e = "AttributeError")).
Proof.
  intros Hfresh. unfold register_state, state_for. rewrite Hfresh. simpl.
  rewrite dict_get_set_eq.
  destruct (parent_key parent) as [p|]; simpl.
  - destruct (String.eqb_spec (state_name state) p) as [Heq|Hne].
    + subst p. rewrite dict_get_set_eq.
      destruct (children_append state (state_name state)) as [s'|] eqn:Happ; simpl.
      * split; [|congruence]. split; auto. intros _.
        exists (state_name state). split; auto. right. split; auto.
        apply (composite_children_append _ (state_name state)). eauto.
      * split.
        -- split; [discriminate|]. intros (p & [= <-] & [[Hp _]|[_ Hc]]); [congruence|].
           apply (composite_children_append _ (state_name state)) in Hc.
           destruct Hc as [s' Hc]. congruence.
        -- intros _. repeat split. eexists. split; eauto.
    + rewrite (dict_get_set_ne _ _ _ _ Hne).
      destruct (dict_get (_states self) p) as [ps|] eqn:Hps.
      * destruct (children_append ps (state_name state)) as [s'|] eqn:Happ; simpl.
        -- split; [|congruence]. split; auto. intros _.
           exists p. split; auto. left. split; [congruence|].
           exists ps. split; auto.
           apply (composite_children_append _ (state_name state)). eauto.
        -- split.
           ++ split; [discriminate|].
              intros (p' & [= <-] & [[_ (ps' & Hps' & Hc)]|[Hp _]]); [|congruence].
              rewrite Hps in Hps'. injection Hps' as <-.
              apply (composite_children_append _ (state_name state)) in Hc.
              destruct Hc as [s' Hc]. congruence.
           ++ intros _. repeat split. eexists. split; eauto.
      * simpl. split.
        -- split; [discriminate|].
           intros (p' & [= <-] & [[_ (ps' & Hps' & _)]|[Hp _]]); congruence.
        -- intros _. repeat split. eexists. split; eauto.
  - split.
    + split; [discriminate|]. intros (p & H & _). discriminate.
    + intros _. repeat split. eexists. split; eauto.
Qed.

Lemma register_state_fresh_witness :
  dict_mem (_states chart_R) "A" = false
  /\ fst (register_state (CompoundState_init "A" (Some "A1") None None)
                         (ParentName "R") chart_R) = inr tt.
Proof.
  split; [reflexivity|].
  apply (register_state_fresh (CompoundState_init "A" (Some "A1") None None)
           (ParentName "R") chart_R); [reflexivity|].
  exists "R". split; [reflexivity|]. left. split; [discriminate|].
  exists (OrthogonalState_init "R" None None). split; reflexivity.
Defined.

(** C10, counterexample: a compound state registered under its own name is
    accepted, although its parent names no state registered before the
    call. *)
Lemma register_state_own_parent :
  dict_mem (_states chart_R) (state_name state_X) = false
  /\ fst (register_state state_X (ParentName "X") chart_R) = inr tt
  /\ ~ (fst (register_state state_X (ParentName "X") chart_R) = inr tt ->
        exists ps, state_for chart_R "X" = Some ps
                   /\ isinstance_CompositeStateMixin ps = true).
Proof.
  split; [reflexivity|]. split; [reflexivity|].
  intros H. destruct (H eq_refl) as (ps & Hps & _). discriminate Hps.
Qed.

(** ** Validation *)

Lemma bind_raise {A B : Type} (e : exn) (k : A -> result B) : bind (inl e) k = inl e.
Proof. reflexivity. Qed.

Lemma raises_tagged_bind {A B : Type} tag (c : result A) (k : A -> result B) :
  raises_tagged tag c -> raises_tagged tag (bind c k).
Proof. intros (msg & -> & H). exists msg. split; auto. Qed.

Lemma raises_tagged_not_return {A : Type} tag (a : A) : ~ raises_tagged tag (inr a).
Proof. intros (msg & H & _). discriminate. Qed.

(** The first loop on transitions that all pass C1: it raises C5 at the
    first transition that fails C5, and falls through when there is none. *)
Lemma first_loop_C5 self l :
  forallb (check_C1 self) l = true ->
  (forallb check_C5 l = true /\ for_each (validate_transition self) l = inr tt)
  \/ (forallb check_C5 l = false /\ raises_tagged "C5" (for_each (validate_transition self) l)).
Proof.
  induction l as [|t l IH]; simpl; intros H1.
  - left. auto.
  - apply andb_true_iff in H1 as [Ht Hl].
    unfold validate_transition at 1 3. rewrite Ht. simpl.
    destruct (check_C5 t) eqn:H5; simpl.
    + destruct (IH Hl) as [[-> ->]|[-> Hr]]; auto.
    + right. split; auto. eexists. split; [reflexivity|]. reflexivity.
  Qed.

(** C8: when every transition passes C1 and one transition has no target,
    no event and no guard, [validate] raises the error of rule C5. *)
Theorem validate_raises_C5 self t :
  rule_C1 self = true ->
  In t (transitions self) ->
  to_state t = None -> event t = None -> guard t = None ->
  raises_tagged "C5" (validate self).
Proof.
  intros H1 Hin Hto Hev Hg. unfold validate.
  apply raises_tagged_bind.
  destruct (first_loop_C5 self (transitions self) H1) as [[H5 _]|[_ Hr]]; auto.
  exfalso. rewrite forallb_forall in H5. specialize (H5 t Hin).
  unfold check_C5 in H5. rewrite Hto, Hev, Hg in H5. discriminate.
Qed.

Lemma validate_raises_C5_witness :
  rule_C1 chart_idle = true
  /\ In transition_idle (transitions chart_idle)
  /\ raises_tagged "C5" (validate chart_idle).
Proof.
  split; [reflexivity|]. split; [simpl; auto|].
  apply (validate_raises_C5 chart_idle transition_idle);
    [reflexivity | simpl; auto | reflexivity | reflexivity | reflexivity].
Defined.

Lemma first_loop_passes self :
  rule_C1 self = true -> rule_C5 self = true ->
  for_each (validate_transition self) (transitions self) = inr tt.
Proof.
  unfold rule_C5. intros H1 H5.
  destruct (first_loop_C5 self (transitions self) H1) as [[_ H]|[H _]]; congruence.
Qed.

Lemma state_loop_passes self l :
  forallb (fun item => check_C2 self (fst item) (snd item)) l = true ->
  forallb (fun item => check_C4 (snd item)) l = true ->
  forallb (fun item => check_C3 (snd item)) l = true ->
  for_each (validate_state self) l = inr tt.
Proof.
  induction l as [|[name state] l IH]; simpl; auto.
  intros H2 H4 H3.
  apply andb_true_iff in H2 as [H2 H2l].
  apply andb_true_iff in H4 as [H4 H4l].
  apply andb_true_iff in H3 as [H3 H3l].
  rewrite H2, H4, H3. simpl. auto.
Qed.

(** Once C1 holds for a transition, the state the C6 loop looks at is its
    effective target. *)
Lemma target_state_effective self t :
  check_C1 self t = true ->
  exists st, target_state self t = inr st /\ effective_target self t = Some st.
Proof.
  unfold check_C1, target_state, effective_target. intros H.
  apply andb_true_iff in H as [H _]. apply dict_mem_true in H as [src Hsrc].
  rewrite Hsrc. destruct (dict_get_key (_states self) (to_state t)); eauto.
Qed.

Lemma check_C6_compound st : check_C6 st = negb (compound_without_initial st).
Proof. reflexivity. Qed.

(** The second loop on transitions that all pass C1: it raises C6 at the
    first transition whose effective target is a compound state without an
    initial state, and falls through when there is none. *)
Lemma second_loop_C6 self l :
  forallb (check_C1 self) l = true ->
  (for_each (validate_target self) l = inr tt
   /\ forall t st, In t l -> effective_target self t = Some st ->
                   compound_without_initial st = false)
  \/ (raises_tagged "C6" (for_each (validate_target self) l)
      /\ exists t st, In t l /\ effective_target self t = Some st
                      /\ compound_without_initial st = true).
Proof.
  induction l as [|t l IH]; simpl; intros H1.
  - left. split; auto. intros t st [].
  - apply andb_true_iff in H1 as [Ht Hl].
    destruct (target_state_effective self t Ht) as (st & Hts & Heff).
    assert (Hv : validate_target self t
                 = if compound_without_initial st
                   then inl (InvalidStatechartError
                               ("C6. Compound state " ++ State_repr st
                                ++ " has an incoming transition but does not define an initial state.")%string)
                   else inr tt).
    { unfold validate_target. rewrite Hts. simpl. rewrite check_C6_compound.
      now destruct (compound_without_initial st). }
    rewrite Hv.
    destruct (compound_without_initial st) eqn:Hc; simpl.
    + right. split.
      * eexists. split; [reflexivity|]. reflexivity.
      * exists t, st. auto.
    + destruct (IH Hl) as [[Hok Hall]|[Hr (t' & st' & Hin & He & Hc')]].
      * left. split; auto. intros t' st' [<-|Hin] He.
        -- congruence.
        -- eauto.
      * right. split; auto. exists t', st'. auto.
Qed.

(** C5, as the code has it: on a chart that passes every rule [validate]
    tests before C6 (C1 and C5 on the transitions, then C2, C4 and C3 on
    the states), [validate] raises the error of rule C6 exactly when the
    effective target of some transition is a compound state whose initial
    state is not set, and returns [True] otherwise; an internal transition
    whose source is such a compound state is one of these cases. *)
Theorem validate_raises_C6 self :
  rule_C1 self = true -> rule_C5 self = true ->
  rule_C2 self = true -> rule_C4 self = true -> rule_C3 self = true ->
  (raises_tagged "C6" (validate self) <->
   exists t st, In t (transitions self) /\ effective_target self t = Some st
                /\ compound_without_initial st = true)
  /\ (raises_tagged "C6" (validate self) \/ validate self = inr true)
  /\ (forall t st, In t (transitions self) -> to_state t = None ->
                   state_for self (from_state t) = Some st ->
                   compound_without_initial st = true ->
                   raises_tagged "C6" (validate self)).
Proof.
  intros H1 H5 H2 H4 H3.
  assert (Hiff : raises_tagged "C6" (validate self) <->
                 exists t st, In t (transitions self) /\ effective_target self t = Some st
                              /\ compound_without_initial st = true).
  { unfold validate.
    rewrite (first_loop_passes self H1 H5). simpl.
    rewrite (state_loop_passes self (_states self) H2 H4 H3). simpl.
    destruct (second_loop_C6 self (transitions self) H1) as [[Hok Hall]|[Hr Hex]].
    - rewrite Hok. simpl. split.
      + intros H. exfalso. exact (raises_tagged_not_return _ _ H).
      + intros (t & st & Hin & He & Hc). rewrite (Hall t st Hin He) in Hc. discriminate.
    - split; auto. intros _. now apply raises_tagged_bind. }
  split; [exact Hiff|]. split.
  - unfold validate.
    rewrite (first_loop_passes self H1 H5). simpl.
    rewrite (state_loop_passes self (_states self) H2 H4 H3). simpl.
    destruct (second_loop_C6 self (transitions self) H1) as [[Hok _]|[Hr _]].
    + right. now rewrite Hok.
    + left. now apply raises_tagged_bind.
  - intros t st Hin Hto Hst Hc. apply Hiff. exists t, st. split; auto. split; auto.
    unfold effective_target. rewrite Hto. exact Hst.
Qed.

Lemma validate_raises_C6_witness :
  (rule_C1 chart_into_B = true /\ rule_C5 chart_into_B = true
   /\ rule_C2 chart_into_B = true /\ rule_C4 chart_into_B = true
   /\ rule_C3 chart_into_B = true)
  /\ raises_tagged "C6" (validate chart_into_B).
Proof.
  split; [repeat split|].
  destruct (validate_raises_C6 chart_into_B) as [Hiff _]; try reflexivity.
  apply Hiff. exists transition_into_B.
  exists (CompoundState ContractMixin_init "B" []
            {| on_entry := None; on_exit := None |} ["B1"] None).
  split; [simpl; auto|]. split; reflexivity.
Defined.

(** C5, counterexample: [chart_idle] passes C1, C2 and C3 and has a
    transition into the compound state [B], which declares no initial
    state; [validate] stops at the internal, eventless and guardless
    transition and raises the error of rule C5, not of rule C6. *)
Lemma validate_C5_before_C6 :
  rule_C1 chart_idle = true /\ rule_C2 chart_idle = true /\ rule_C3 chart_idle = true
  /\ (exists t st, In t (transitions chart_idle)
                   /\ to_state t = Some "B"
                   /\ state_for chart_idle "B" = Some st
                   /\ isinstance_CompoundState st = true /\ initial_of st = None)
  /\ raises_tagged "C5" (validate chart_idle)
  /\ ~ raises_tagged "C6" (validate chart_idle).
Proof.
  split; [reflexivity|]. split; [reflexivity|]. split; [reflexivity|].
  split; [|split].
  - exists transition_into_B.
    exists (CompoundState ContractMixin_init "B" []
              {| on_entry := None; on_exit := None |} ["B1"] None).
    split; [simpl; auto|]. repeat split; reflexivity.
  - eexists. split; reflexivity.
  - intros (msg & Hmsg & Hp). vm_compute in Hmsg. injection Hmsg as <-. discriminate Hp.
Qed.

(** ** The parent chain *)

Lemma str_in_In s l : str_in s l = true <-> In s l.
Proof.
  unfold str_in. rewrite existsb_exists. split.
  - intros (x & Hin & Heq). apply String.eqb_eq in Heq. now subst.
  - intros Hin. exists s. split; auto. apply String.eqb_refl.
Qed.

Lemma str_in_not_In s l : str_in s l = false <-> ~ In s l.
Proof.
  rewrite <- str_in_In. destruct (str_in s l); split; congruence.
Qed.

Section Walk.
Variable parents : dict (option string).

(** The loop computes what [walk] describes, as soon as it may run once
    per collected name. *)
Lemma walk_loop parent l :
  walk parents parent l ->
  forall fuel ancestors, length l <= fuel ->
    ancestors_loop fuel parents parent ancestors = Some (inr (ancestors ++ l)).
Proof.
  induction 1 as [parent Hstop | p parent' l Htrue Hget Hwalk IH];
    intros fuel ancestors Hfuel.
  - destruct fuel; simpl; rewrite Hstop, app_nil_r; reflexivity.
  - destruct fuel as [|fuel]; simpl in Hfuel; [lia|].
    cbn [ancestors_loop]. rewrite Htrue, Hget.
    rewrite IH by lia. now rewrite <- app_assoc.
Qed.

Lemma walk_deterministic parent l :
  walk parents parent l -> forall l', walk parents parent l' -> l = l'.
Proof.
  induction 1 as [parent Hstop | p parent' l Htrue Hget Hwalk IH]; intros l' H'.
  - inversion H'; subst; auto. congruence.
  - inversion H' as [? Hstop | ? parent'' l'' _ Hget' Hwalk']; subst.
    + congruence.
    + rewrite Hget in Hget'. injection Hget' as <-. f_equal. auto.
Qed.

(** From any name of the chain on, the chain is the chain of that name. *)
Lemma walk_suffix l1 : forall parent x l2,
  walk parents parent (l1 ++ x :: l2) -> walk parents (Some x) (x :: l2).
Proof.
  induction l1 as [|y l1 IH]; simpl; intros parent x l2 H.
  - inversion H; subst. econstructor; eauto.
  - inversion H; subst. eauto.
Qed.

(** A chain that ends visits no name twice. *)
Lemma walk_NoDup parent l : walk parents parent l -> NoDup l.
Proof.
  induction 1 as [parent Hstop | p parent' l Htrue Hget Hwalk IH].
  - constructor.
  - constructor; auto. intros Hin.
    apply in_split in Hin as (l1 & l2 & ->).
    assert (H1 : walk parents (Some p) (p :: l2)) by (eapply walk_suffix; eauto).
    assert (H2 : walk parents (Some p) (p :: l1 ++ p :: l2)) by (econstructor; eauto).
    pose proof (walk_deterministic _ _ H1 _ H2) as Heq.
    apply (f_equal (@length string)) in Heq. simpl in Heq.
    rewrite length_app in Heq. simpl in Heq. lia.
Qed.
End Walk.

(** [find] returns the element that follows a prefix of rejected ones. *)
Lemma find_split {A : Type} (f : A -> bool) l x :
  find f l = Some x <->
  exists l1 l2, l = l1 ++ x :: l2 /\ f x = true /\ forall y, In y l1 -> f y = false.
Proof.
  split.
  - induction l as [|a l IH]; simpl; [discriminate|].
    destruct (f a) eqn:Ha.
    + intros [= ->]. exists [], l. repeat split; auto. intros y [].
    + intros H. destruct (IH H) as (l1 & l2 & -> & Hx & Hl1).
      exists (a :: l1), l2. repeat split; auto.
      intros y [<-|Hy]; auto.
  - intros (l1 & l2 & -> & Hx & Hl1).
    induction l1 as [|a l1 IH]; simpl.
    + now rewrite Hx.
    + rewrite (Hl1 a) by now left. apply IH. intros y Hy. apply Hl1. now right.
Qed.

Lemma find_none_iff {A : Type} (f : A -> bool) l :
  find f l = None <-> forall y, In y l -> f y = false.
Proof.
  split.
  - apply find_none.
  - induction l as [|a l IH]; simpl; auto.
    intros H. rewrite (H a) by now left. apply IH. intros y Hy. apply H. now right.
Qed.

(** The first name of one chain that is on the other chain is the same
    from both sides: from a common name on, the two chains are equal. *)
Lemma first_common_symmetric parents pa pb la lb :
  walk parents pa la -> walk parents pb lb ->
  find (fun s => str_in s lb) la = find (fun s => str_in s la) lb.
Proof.
  intros Ha Hb.
  destruct (find (fun s => str_in s lb) la) as [x|] eqn:Hfind.
  - symmetry. apply find_split in Hfind as (a1 & a2 & -> & Hx & Ha1).
    apply str_in_In in Hx. apply in_split in Hx as (b1 & b2 & ->).
    assert (Heq : x :: a2 = x :: b2).
    { eapply walk_deterministic; eapply walk_suffix; eauto. }
    injection Heq as ->.
    apply find_split. exists b1, b2. split; auto. split.
    + apply str_in_In. apply in_or_app. right. now left.
    + intros y Hy. apply str_in_not_In. intros Hin.
      apply in_app_or in Hin as [Hin|Hin].
      * specialize (Ha1 y Hin). apply str_in_not_In in Ha1.
        apply Ha1. apply in_or_app. now left.
      * pose proof (walk_NoDup _ _ _ Hb) as Hnd.
        revert Hnd Hy Hin. clear. intros Hnd Hy Hin.
        induction b1 as [|b b1 IH]; simpl in *; [contradiction|].
        inversion Hnd as [|? ? Hnotin Hnd']; subst.
        destruct Hy as [<-|Hy]; auto.
        apply Hnotin. apply in_or_app. now right.
  - symmetry. apply find_none_iff. intros y Hy.
    apply str_in_not_In. intros Hin.
    pose proof (find_none _ _ Hfind y Hin) as H. simpl in H.
    apply str_in_not_In in H. contradiction.
Qed.

(** What the loop returns is a walk: the converse of [walk_loop]. *)
Lemma loop_walk parents fuel : forall parent ancestors l,
  ancestors_loop fuel parents parent ancestors = Some (inr l) ->
  exists l', l = ancestors ++ l' /\ walk parents parent l'.
Proof.
  induction fuel as [|fuel IH]; intros parent ancestors l; cbn [ancestors_loop];
    destruct (truthy parent) eqn:Htrue; try discriminate.
  - intros [= <-]. exists []. split; [now rewrite app_nil_r | now constructor].
  - destruct parent as [p|]; [|discriminate].
    destruct (dict_get parents p) as [parent'|] eqn:Hget; [|discriminate].
    intros H. destruct (IH _ _ _ H) as (l' & -> & Hw).
    exists (p :: l'). split; [now rewrite <- app_assoc | econstructor; eauto].
  - intros [= <-]. exists []. split; [now rewrite app_nil_r | now constructor].
Qed.

(** On any chart at all, two calls of [least_common_ancestor] with the
    arguments swapped that both return, return the same answer. *)
Lemma least_common_ancestor_swap fuel self a b r r' :
  least_common_ancestor fuel self a b = Some (inr r) ->
  least_common_ancestor fuel self b a = Some (inr r') ->
  r = r'.
Proof.
  unfold least_common_ancestor.
  destruct (ancestors_for fuel self a) as [[e|la]|] eqn:Ha; try discriminate.
  destruct (ancestors_for fuel self b) as [[e|lb]|] eqn:Hb; try discriminate.
  intros [= <-] [= <-].
  unfold ancestors_for in Ha, Hb.
  destruct (dict_get (_parent self) a) as [va|]; [|discriminate].
  destruct (dict_get (_parent self) b) as [vb|]; [|discriminate].
  apply loop_walk in Ha as (la' & -> & Hwa). apply loop_walk in Hb as (lb' & -> & Hwb).
  simpl. eapply first_common_symmetric; eauto.
Qed.

(** ** Built charts *)

Lemma walk_extend parents parents' parent l :
  (forall k v, dict_get parents k = Some v -> dict_get parents' k = Some v) ->
  walk parents parent l -> walk parents' parent l.
Proof.
  intros Hext. induction 1; econstructor; eauto.
Qed.

(** The chart a successful [register_state] leaves, when the parent was
    registered before the call. *)
Lemma register_state_returns state parent self self' :
  register_state state parent self = (inr tt, self') ->
  dict_mem_key (_states self) (parent_key parent) = true ->
  dict_mem (_states self) (state_name state) = false
  /\ exists p ps',
       parent_key parent = Some p
       /\ dict_mem (_states self) p = true
       /\ _parent self' = dict_set (_parent self) (state_name state) (Some p)
       /\ _states self' = dict_set (dict_set (_states self) (state_name state) state) p ps'
       /\ _root self' = _root self
       /\ transitions self' = transitions self.
Proof.
  unfold register_state.
  destruct (dict_mem (_states self) (state_name state)) eqn:Hfresh; [discriminate|].
  simpl. rewrite dict_get_set_eq.
  destruct (parent_key parent) as [p|]; simpl; [|discriminate].
  intros Hreg Hmem. split; auto.
  destruct (dict_get (dict_set (_states self) (state_name state) state) p) as [ps|];
    [|discriminate].
  destruct (children_append ps (state_name state)) as [ps'|]; [|discriminate].
  injection Hreg as <-. exists p, ps'. simpl.
  unfold dict_mem_key in Hmem. simpl in Hmem. fold (dict_mem (_states self) p) in Hmem.
  repeat split; auto.
Qed.

Lemma register_transition_returns t self self' :
  register_transition t self = (inr tt, self') ->
  _parent self' = _parent self
  /\ _root self' = _root self
  /\ forall k, dict_mem (_states self') k = dict_mem (_states self) k.
Proof.
  unfold register_transition. simpl.
  destruct (dict_get (_states self) (from_state t)) as [s|] eqn:Hs; [|discriminate].
  destruct (transitions_append s t) as [s'|]; [|discriminate].
  intros [= <-]. simpl. repeat split.
  intros k. rewrite dict_mem_set.
  destruct (String.eqb_spec (from_state t) k) as [<-|]; auto.
  simpl. symmetry. apply dict_mem_true. eauto.
Qed.

Lemma hierarchy_init name r description bootstrap :
  hierarchy (StateChart_init name r description bootstrap).
Proof.
  constructor; unfold root; simpl.
  - intros k. unfold dict_mem. simpl. now destruct (state_name r =? k)%string.
  - now rewrite String.eqb_refl.
  - intros k v. destruct (String.eqb_spec (state_name r) k); congruence.
  - intros k v. destruct (state_name r =? k)%string; [|discriminate].
    intros [= <-]. exists []. now constructor.
Qed.

Lemma hierarchy_register_state state parent self self' :
  hierarchy self ->
  dict_mem_key (_states self) (parent_key parent) = true ->
  register_state state parent self = (inr tt, self') ->
  hierarchy self'.
Proof.
  intros [Hkeys Hroot Hpar Hwalk] Hmem Hreg.
  destruct (register_state_returns _ _ _ _ Hreg Hmem)
    as (Hfresh & p & ps' & Hkey & Hp & Hparent' & Hstates' & Hroot' & _).
  assert (Hfresh' : dict_get (_parent self) (state_name state) = None).
  { apply dict_mem_false. now rewrite Hkeys. }
  assert (Hext : forall k v, dict_get (_parent self) k = Some v ->
                             dict_get (_parent self') k = Some v).
  { intros k v Hk. rewrite Hparent', dict_get_set_ne; auto. congruence. }
  assert (Hp' : exists w, dict_get (_parent self) p = Some w).
  { apply dict_mem_true. now rewrite Hkeys. }
  constructor; unfold root in *; rewrite ?Hroot'.
  - intros k. rewrite Hparent', Hstates', !dict_mem_set, Hkeys.
    destruct (String.eqb_spec p k) as [<-|]; simpl; auto.
    rewrite Hp. now rewrite orb_true_r.
  - auto.
  - intros k v. rewrite Hparent' at 1.
    destruct (String.eqb_spec (state_name state) k) as [<-|Hne].
    + rewrite dict_get_set_eq. intros [= <-] _. exists p. split; auto.
      destruct Hp' as [w Hw]. apply dict_mem_true. eauto.
    + rewrite dict_get_set_ne by auto. intros Hk Hnr.
      destruct (Hpar k v Hk Hnr) as (q & -> & Hq). exists q. split; auto.
      apply dict_mem_true in Hq as [w Hw]. apply dict_mem_true. eauto.
  - intros k v. rewrite Hparent' at 1.
    destruct (String.eqb_spec (state_name state) k) as [<-|Hne].
    + rewrite dict_get_set_eq. intros [= <-].
      destruct Hp' as [w Hw]. destruct (Hwalk p w Hw) as [l Hl].
      destruct (truthy (Some p)) eqn:Htrue.
      * exists (p :: l). econstructor; eauto. eapply walk_extend; eauto.
      * exists []. now constructor.
    + rewrite dict_get_set_ne by auto. intros Hk.
      destruct (Hwalk k v Hk) as [l Hl]. exists l. eapply walk_extend; eauto.
Qed.

Lemma hierarchy_register_transition t self self' :
  hierarchy self ->
  register_transition t self = (inr tt, self') ->
  hierarchy self'.
Proof.
  intros [Hkeys Hroot Hpar Hwalk] Hreg.
  destruct (register_transition_returns _ _ _ Hreg) as (Hparent' & Hroot' & Hmem).
  constructor; unfold root in *; rewrite ?Hparent', ?Hroot'; auto.
  intros k. now rewrite Hmem.
Qed.

(** Every built chart is a hierarchy. *)
Lemma built_hierarchy self : built self -> hierarchy self.
Proof.
  induction 1.
  - apply hierarchy_init.
  - eapply hierarchy_register_state; eauto.
  - eapply hierarchy_register_transition; eauto.
Qed.

(** On a hierarchy, [ancestors_for] returns for every registered state, as
    soon as the loop may run once per ancestor. *)
Lemma hierarchy_ancestors_for self s :
  hierarchy self -> registered self s ->
  exists v l,
    dict_get (_parent self) s = Some v
    /\ walk (_parent self) v l
    /\ forall fuel, length l <= fuel -> ancestors_for fuel self s = Some (inr l).
Proof.
  intros H Hs. unfold registered in Hs. rewrite <- (hierarchy_keys _ H) in Hs.
  apply dict_mem_true in Hs as [v Hv].
  destruct (hierarchy_walk _ H s v Hv) as [l Hl].
  exists v, l. repeat split; auto.
  intros fuel Hfuel. unfold ancestors_for. rewrite Hv.
  now rewrite (walk_loop _ _ _ Hl fuel []).
Qed.

(** In a hierarchy, the parent recorded for a state is a registered
    state. *)
Lemma hierarchy_parent_registered self k p :
  hierarchy self -> dict_get (_parent self) k = Some (Some p) -> registered self p.
Proof.
  intros H Hk. unfold registered. rewrite <- (hierarchy_keys _ H).
  destruct (String.eqb_spec k (root self)) as [->|Hne].
  - rewrite (hierarchy_root _ H) in Hk. discriminate.
  - destruct (hierarchy_parent _ H k _ Hk Hne) as (q & [= <-] & Hq). exact Hq.
Qed.

Lemma nonempty_truthy s : s <> "" -> truthy (Some s) = true.
Proof.
  intros H. simpl. apply String.eqb_neq in H. now rewrite H.
Qed.

Lemma truthy_false_cases v : truthy v = false -> v = None \/ v = Some "".
Proof.
  destruct v as [s|]; simpl; auto.
  destruct (String.eqb_spec s ""); [subst; auto | discriminate].
Qed.

(** When no name is empty, what the loop collects is the parent chain. *)
Lemma walk_parent_chain self :
  hierarchy self -> nonempty_names self ->
  forall v l, walk (_parent self) v l ->
  forall s, dict_get (_parent self) s = Some v -> parent_chain self s l.
Proof.
  intros H Hne. induction 1 as [v Hstop | p parent' l Htrue Hget Hwalk IH]; intros s Hs.
  - destruct (truthy_false_cases _ Hstop) as [-> | ->].
    + now constructor.
    + exfalso. apply (Hne ""); auto. eapply hierarchy_parent_registered; eauto.
  - econstructor; eauto.
Qed.

(** Every non-empty parent chain ends at the root. *)
Lemma parent_chain_root_last self :
  hierarchy self ->
  forall s l, parent_chain self s l ->
  (s = root self -> l = []) /\ (s <> root self -> exists l', l = l' ++ [root self]).
Proof.
  intros H. induction 1 as [s Hs | s p l Hs Hchain [IHroot IHlast]].
  - split; auto. intros Hne.
    destruct (hierarchy_parent _ H s _ Hs Hne) as (q & Hq & _). discriminate.
  - split.
    + intros ->. rewrite (hierarchy_root _ H) in Hs. discriminate.
    + intros _. destruct (String.eqb_spec p (root self)) as [->|Hne].
      * rewrite IHroot by reflexivity. now exists [].
      * destruct (IHlast Hne) as [l' ->]. now exists (p :: l').
Qed.

Lemma built_snd_register_state self state parent :
  built self ->
  dict_mem_key (_states self) (parent_key parent) = true ->
  fst (register_state state parent self) = inr tt ->
  built (snd (register_state state parent self)).
Proof.
  intros Hb Hmem Hfst. eapply built_register_state; eauto.
  rewrite <- Hfst. apply surjective_pairing.
Qed.

Lemma built_snd_register_transition self t :
  built self ->
  fst (register_transition t self) = inr tt ->
  built (snd (register_transition t self)).
Proof.
  intros Hb Hfst. eapply built_register_transition; eauto.
  rewrite <- Hfst. apply surjective_pairing.
Qed.

Ltac built_by_calls :=
  repeat first
    [ apply built_init
    | apply built_snd_register_transition; [|reflexivity]
    | apply built_snd_register_state; [|reflexivity|reflexivity] ].

Lemma built_example_chart : built example_chart.
Proof.
  unfold example_chart, chart_states, chart_RAB, chart_R. cbv zeta. built_by_calls.
Qed.

Lemma ancestors_loop_stop fuel parents parent ancestors :
  truthy parent = false ->
  ancestors_loop fuel parents parent ancestors = Some (inr ancestors).
Proof.
  intros H. destruct fuel; simpl; now rewrite H.
Qed.

Lemma depth_for_ancestors fuel self s l :
  ancestors_for fuel self s = Some (inr l) ->
  depth_for fuel self s = Some (inr (1 + length l)).
Proof.
  unfold depth_for. intros ->. now rewrite Nat.add_comm.
Qed.

Lemma nonempty_names_example_chart : nonempty_names example_chart.
Proof.
  intros name Hreg ->. discriminate Hreg.
Qed.

Lemma built_chart_unnamed : built chart_unnamed.
Proof.
  unfold chart_unnamed, chart_unnamed_root. built_by_calls.
Qed.

(** ** A state that is its own parent *)

(** Why [built] asks for a parent registered before the state: in the chart
    where [X] was accepted as its own parent, the loop of [ancestors_for]
    never ends. *)
Lemma ancestors_for_own_parent_diverges :
  fst (register_state state_X (ParentName "X") chart_R) = inr tt
  /\ forall fuel, ancestors_for fuel chart_own_parent "X" = None.
Proof.
  split; [reflexivity|].
  assert (Hloop : forall fuel ancestors,
             ancestors_loop fuel (_parent chart_own_parent) (Some "X") ancestors = None).
  { induction fuel as [|fuel IH]; intros ancestors; [reflexivity|].
    cbn [ancestors_loop]. change (truthy (Some "X")) with true. cbv iota.
    change (dict_get (_parent chart_own_parent) "X") with (Some (Some "X")).
    apply IH. }
  intros fuel. unfold ancestors_for.
  change (dict_get (_parent chart_own_parent) "X") with (Some (Some "X")).
  apply Hloop.
Qed.

(** ** Charts made by calls that return *)

(** The parent named in the call is a state registered before the call or
    the new state itself. *)
Lemma register_state_returns_any state parent self self' :
  register_state state parent self = (inr tt, self') ->
  dict_mem (_states self) (state_name state) = false
  /\ exists p ps',
       parent_key parent = Some p
       /\ (p = state_name state \/ dict_mem (_states self) p = true)
       /\ _parent self' = dict_set (_parent self) (state_name state) (Some p)
       /\ _states self' = dict_set (dict_set (_states self) (state_name state) state) p ps'
       /\ _root self' = _root self
       /\ transitions self' = transitions self.
Proof.
  unfold register_state.
  destruct (dict_mem (_states self) (state_name state)) eqn:Hfresh; [discriminate|].
  simpl. rewrite dict_get_set_eq.
  destruct (parent_key parent) as [p|]; simpl; [|discriminate].
  intros Hreg. split; auto.
  destruct (dict_get (dict_set (_states self) (state_name state) state) p) as [ps|] eqn:Hps;
    [|discriminate].
  destruct (children_append ps (state_name state)) as [ps'|]; [|discriminate].
  injection Hreg as <-. exists p, ps'. simpl. repeat split; auto.
  destruct (String.eqb_spec p (state_name state)) as [->|Hne]; [now left|right].
  rewrite dict_get_set_ne in Hps by congruence. apply dict_mem_true. eauto.
Qed.

Section Extend.
Variables self self' : StateChart.
Hypothesis extend : forall k v,
  dict_get (_parent self) k = Some v -> dict_get (_parent self') k = Some v.

Lemma parent_chain_extend s l : parent_chain self s l -> parent_chain self' s l.
Proof.
  induction 1; [apply parent_chain_root | eapply parent_chain_up]; eauto.
Qed.

Lemma above_extend s x : above (_parent self) s x -> above (_parent self') s x.
Proof.
  induction 1; [apply above_self | eapply above_parent]; eauto.
Qed.

Lemma own_parent_extend x : own_parent self x -> own_parent self' x.
Proof.
  unfold own_parent. auto.
Qed.
End Extend.

Lemma lineage_init name r description bootstrap :
  lineage (StateChart_init name r description bootstrap).
Proof.
  constructor; unfold root; simpl.
  - intros k. unfold dict_mem. simpl. now destruct (state_name r =? k)%string.
  - now rewrite String.eqb_refl.
  - intros k v. destruct (String.eqb_spec (state_name r) k); congruence.
  - intros k v. destruct (String.eqb_spec (state_name r) k) as [<-|]; [|discriminate].
    intros [= <-]. left. exists []. apply parent_chain_root. simpl.
    now rewrite String.eqb_refl.
Qed.

Lemma lineage_register_state state parent self self' :
  lineage self ->
  register_state state parent self = (inr tt, self') ->
  lineage self'.
Proof.
  intros [Hkeys Hroot Hpar Hchain] Hreg.
  destruct (register_state_returns_any _ _ _ _ Hreg)
    as (Hfresh & p & ps' & Hkey & Hp & Hparent' & Hstates' & Hroot' & _).
  assert (Hfresh' : dict_get (_parent self) (state_name state) = None).
  { apply dict_mem_false. now rewrite Hkeys. }
  assert (Hext : forall k v, dict_get (_parent self) k = Some v ->
                             dict_get (_parent self') k = Some v).
  { intros k v Hk. rewrite Hparent', dict_get_set_ne; auto. congruence. }
  assert (Hnew : dict_get (_parent self') (state_name state) = Some (Some p)).
  { rewrite Hparent'. apply dict_get_set_eq. }
  constructor; unfold root in *; rewrite ?Hroot'.
  - intros k. rewrite Hparent', Hstates', !dict_mem_set, Hkeys.
    destruct (String.eqb_spec p k) as [<-|]; simpl; auto.
    destruct Hp as [->|Hp].
    + now rewrite String.eqb_refl.
    + rewrite Hp. now rewrite orb_true_r.
  - auto.
  - intros k v. rewrite Hparent' at 1.
    destruct (String.eqb_spec (state_name state) k) as [<-|Hne].
    + rewrite dict_get_set_eq. intros [= <-] _. exists p. split; auto.
      apply dict_mem_true. destruct Hp as [->|Hp]; [eauto|].
      rewrite <- Hkeys in Hp. apply dict_mem_true in Hp as [w Hw]. eauto.
    + rewrite dict_get_set_ne by auto. intros Hk Hnr.
      destruct (Hpar k v Hk Hnr) as (q & -> & Hq). exists q. split; auto.
      apply dict_mem_true in Hq as [w Hw]. apply dict_mem_true. eauto.
  - intros k v. rewrite Hparent' at 1.
    destruct (String.eqb_spec (state_name state) k) as [<-|Hne].
    + rewrite dict_get_set_eq. intros [= <-].
      destruct Hp as [->|Hp].
      * right. exists (state_name state). split; [apply above_self | exact Hnew].
      * rewrite <- Hkeys in Hp. apply dict_mem_true in Hp as [w Hw].
        destruct (Hchain p w Hw) as [[l Hl]|(x & Hx & Hown)].
        -- left. exists (p :: l). eapply parent_chain_up; eauto.
           eapply parent_chain_extend; eauto.
        -- right. exists x. split.
           ++ eapply above_parent; eauto. eapply above_extend; eauto.
           ++ eapply own_parent_extend; eauto.
    + rewrite dict_get_set_ne by auto. intros Hk.
      destruct (Hchain k v Hk) as [[l Hl]|(x & Hx & Hown)].
      * left. exists l. eapply parent_chain_extend; eauto.
      * right. exists x. split; [eapply above_extend | eapply own_parent_extend]; eauto.
Qed.

Lemma lineage_register_transition t self self' :
  lineage self ->
  register_transition t self = (inr tt, self') ->
  lineage self'.
Proof.
  intros [Hkeys Hroot Hpar Hchain] Hreg.
  destruct (register_transition_returns _ _ _ Hreg) as (Hparent' & Hroot' & Hmem).
  assert (Hext : forall k v, dict_get (_parent self) k = Some v ->
                             dict_get (_parent self') k = Some v).
  { intros k v. now rewrite Hparent'. }
  constructor; unfold root in *; rewrite ?Hroot'.
  - intros k. now rewrite Hparent', Hmem.
  - now rewrite Hparent'.
  - rewrite Hparent'. auto.
  - intros k v. rewrite Hparent' at 1. intros Hk.
    destruct (Hchain k v Hk) as [[l Hl]|(x & Hx & Hown)].
    + left. exists l. eapply parent_chain_extend; eauto.
    + right. exists x. split; [eapply above_extend | eapply own_parent_extend]; eauto.
Qed.

(** Every constructed chart has a lineage. *)
Lemma constructed_lineage self : constructed self -> lineage self.
Proof.
  induction 1.
  - apply lineage_init.
  - eapply lineage_register_state; eauto.
  - eapply lineage_register_transition; eauto.
Qed.

(** The charts in which every state was registered under a parent
    registered before it are among the constructed charts, and none of
    their states is its own parent. *)
Lemma built_constructed self : built self -> constructed self.
Proof.
  induction 1.
  - apply constructed_init.
  - eapply constructed_register_state; eauto.
  - eapply constructed_register_transition; eauto.
Qed.

Lemma built_no_own_parent self : built self -> forall s, no_own_parent_above self s.
Proof.
  intros Hb s x _. revert x. unfold own_parent.
  induction Hb as [name r d b | self state parent self' Hb IH Hmem Hreg
                   | self t self' Hb IH Hreg]; intros x.
  - simpl. destruct (state_name r =? x)%string; discriminate.
  - destruct (register_state_returns _ _ _ _ Hreg Hmem)
      as (Hfresh & p & ps' & _ & Hp & Hparent' & _).
    rewrite Hparent'. destruct (String.eqb_spec (state_name state) x) as [<-|Hx].
    + rewrite dict_get_set_eq. intros [= ->]. congruence.
    + rewrite dict_get_set_ne by auto. apply IH.
  - destruct (register_transition_returns _ _ _ Hreg) as (Hparent' & _).
    rewrite Hparent'. apply IH.
Qed.

(** ** Chains of proper ancestors *)

Lemma parent_chain_deterministic self s l :
  parent_chain self s l -> forall l', parent_chain self s l' -> l = l'.
Proof.
  induction 1 as [s Hs | s p l Hs Hc IH]; intros l' H'; inversion H'; subst;
    try congruence.
  assert (p = p0) by congruence. subst. f_equal. auto.
Qed.

Lemma parent_chain_suffix self l1 : forall s x l2,
  parent_chain self s (l1 ++ x :: l2) -> parent_chain self x l2.
Proof.
  induction l1 as [|y l1 IH]; simpl; intros s x l2 H; inversion H; subst; eauto.
Qed.

(** A state is not on its own chain of proper ancestors. *)
Lemma parent_chain_proper self s l : parent_chain self s l -> ~ In s l.
Proof.
  intros Hc Hin. apply in_split in Hin as (l1 & l2 & ->).
  pose proof (parent_chain_suffix _ _ _ _ _ Hc) as Hc'.
  pose proof (parent_chain_deterministic _ _ _ Hc _ Hc') as Heq.
  apply (f_equal (@length string)) in Heq. rewrite length_app in Heq. simpl in Heq. lia.
Qed.

(** Every non-empty chain of a chart with a lineage ends at the root. *)
Lemma lineage_root_last self :
  lineage self ->
  forall s l, parent_chain self s l ->
  (s = root self -> l = []) /\ (s <> root self -> exists l', l = l' ++ [root self]).
Proof.
  intros H. induction 1 as [s Hs | s p l Hs Hchain [IHroot IHlast]].
  - split; auto. intros Hne.
    destruct (lineage_parent _ H s _ Hs Hne) as (q & Hq & _). discriminate.
  - split.
    + intros ->. rewrite (lineage_root _ H) in Hs. discriminate.
    + intros _. destruct (String.eqb_spec p (root self)) as [->|Hne].
      * rewrite IHroot by reflexivity. now exists [].
      * destruct (IHlast Hne) as [l' ->]. now exists (p :: l').
Qed.

(** In a chart with a lineage, a registered state with no state that is its
    own parent at or above it has a chain of proper ancestors. *)
Lemma lineage_parent_chain self s :
  lineage self -> registered self s -> no_own_parent_above self s ->
  exists l, parent_chain self s l.
Proof.
  intros H Hs Hno. unfold registered in Hs. rewrite <- (lineage_keys _ H) in Hs.
  apply dict_mem_true in Hs as [v Hv].
  destruct (lineage_chain _ H s v Hv) as [Hl|(x & Hx & Hown)]; auto.
  destruct (Hno x Hx Hown).
Qed.

(** The loop of [ancestors_for] follows the chain of proper ancestors and
    stops before the first empty name on it, if there is one. *)
Lemma parent_chain_walk self s l :
  parent_chain self s l ->
  exists v l', dict_get (_parent self) s = Some v
               /\ walk (_parent self) v l'
               /\ length l' <= length l
               /\ (~ In "" l -> l' = l).
Proof.
  induction 1 as [s Hs | s p l Hs Hc (v & l' & Hv & Hw & Hlen & Heq)].
  - exists None, []. repeat split; auto. now constructor.
  - destruct (truthy (Some p)) eqn:Htrue.
    + exists (Some p), (p :: l'). repeat split; auto.
      * econstructor; eauto.
      * simpl. lia.
      * intros Hn. f_equal. apply Heq. intros Hin. apply Hn. now right.
    + exists (Some p), []. repeat split; auto.
      * now constructor.
      * simpl. lia.
      * intros Hn. exfalso. apply Hn. left.
        destruct (truthy_false_cases _ Htrue) as [Hp|Hp]; congruence.
Qed.

(** [ancestors_for] returns for a state that has a chain of proper
    ancestors, within one iteration for each state of the chain; it returns
    the chain when no name on it is empty. *)
Lemma parent_chain_ancestors_for self s l :
  parent_chain self s l ->
  exists v l', dict_get (_parent self) s = Some v
               /\ walk (_parent self) v l'
               /\ (forall fuel, length l <= fuel -> ancestors_for fuel self s = Some (inr l'))
               /\ (~ In "" l -> l' = l).
Proof.
  intros Hc. destruct (parent_chain_walk _ _ _ Hc) as (v & l' & Hv & Hw & Hlen & Heq).
  exists v, l'. repeat split; auto.
  intros fuel Hfuel. unfold ancestors_for. rewrite Hv.
  rewrite (walk_loop _ _ _ Hw fuel []) by lia. reflexivity.
Qed.

(** The loop of [ancestors_for] never ends once it reaches a state with a
    non-empty name that is its own parent. *)
Lemma ancestors_loop_own_parent parents x :
  truthy (Some x) = true -> dict_get parents x = Some (Some x) ->
  forall fuel ancestors, ancestors_loop fuel parents (Some x) ancestors = None.
Proof.
  intros Htrue Hget. induction fuel as [|fuel IH]; intros ancestors;
    cbn [ancestors_loop]; rewrite Htrue; [reflexivity|].
  rewrite Hget. apply IH.
Qed.

(** ** Symmetry of the least common ancestor *)


Lemma built_chart_unnamed_leaf : built chart_unnamed_leaf.
Proof.
  unfold chart_unnamed_leaf, chart_states, chart_RAB, chart_R. cbv zeta. built_by_calls.
Qed.

Lemma constructed_snd_register_state self state parent :
  constructed self ->
  fst (register_state state parent self) = inr tt ->
  constructed (snd (register_state state parent self)).
Proof.
  intros Hc Hfst. eapply constructed_register_state; eauto.
  rewrite <- Hfst. apply surjective_pairing.
Qed.

Lemma constructed_chart_A_X : constructed chart_A_X.
Proof.
  unfold chart_A_X, chart_R. cbv zeta.
  repeat first [ apply constructed_init
               | apply constructed_snd_register_state; [|reflexivity] ].
Qed.

(** In [chart_A_X] the loop of [ancestors_for] never ends for [X]. *)
Lemma ancestors_for_chart_A_X fuel : ancestors_for fuel chart_A_X "X" = None.
Proof.
  unfold ancestors_for.
  change (dict_get (_parent chart_A_X) "X") with (Some (Some "X")).
  now apply ancestors_loop_own_parent.
Qed.



(** ** The ancestors of a state *)

(** C7, as the code has it: on a chart made by calls that return, a
    registered state [s] such that neither [s] nor a state above it is its
    own parent has a chain of proper ancestors, nearest parent first, which
    does not contain [s], is empty for the root and ends with the root
    otherwise.  [ancestors_for(s)] returns within one iteration for each
    state of the chain, [depth_for(s)] returns 1 plus the length of that
    list, and the root has no ancestor and depth 1.  When no name on the
    chain is empty, [ancestors_for(s)] is the chain. *)
Theorem ancestors_for_parent_chain self s :
  constructed self -> registered self s -> no_own_parent_above self s ->
  exists chain l,
    parent_chain self s chain
    /\ ~ In s chain
    /\ (s <> root self -> exists chain', chain = chain' ++ [root self])
    /\ (forall fuel, length chain <= fuel ->
          ancestors_for fuel self s = Some (inr l)
          /\ depth_for fuel self s = Some (inr (1 + length l)))
    /\ (s = root self -> l = [])
    /\ ((forall p, In p chain -> p <> "") -> l = chain).
Proof.
  intros Hc Hs Hno. apply constructed_lineage in Hc.
  destruct (lineage_parent_chain self s Hc Hs Hno) as [chain Hchain].
  destruct (parent_chain_ancestors_for _ _ _ Hchain) as (v & l & Hv & Hw & Hf & Heq).
  destruct (lineage_root_last self Hc s chain Hchain) as [Hroot Hlast].
  exists chain, l. split; [exact Hchain|]. split; [exact (parent_chain_proper _ _ _ Hchain)|].
  split; [exact Hlast|]. split; [|split].
  - intros fuel Hfuel. split; auto. apply depth_for_ancestors; auto.
  - intros ->. rewrite (lineage_root _ Hc) in Hv. injection Hv as <-. now inversion Hw.
  - intros Hne. apply Heq. intros Hin. now apply (Hne "").
Qed.

Lemma ancestors_for_parent_chain_witness :
  registered chart_unnamed_leaf ""
  /\ exists chain l,
       parent_chain chart_unnamed_leaf "A1" chain
       /\ ~ In "A1" chain
       /\ ("A1" <> root chart_unnamed_leaf -> exists chain', chain = chain' ++ ["R"])
       /\ (forall fuel, length chain <= fuel ->
             ancestors_for fuel chart_unnamed_leaf "A1" = Some (inr l)
             /\ depth_for fuel chart_unnamed_leaf "A1" = Some (inr (1 + length l)))
       /\ ("A1" = root chart_unnamed_leaf -> l = [])
       /\ ((forall p, In p chain -> p <> "") -> l = chain).
Proof.
  split; [reflexivity|].
  apply (ancestors_for_parent_chain chart_unnamed_leaf "A1").
  - apply built_constructed. exact built_chart_unnamed_leaf.
  - reflexivity.
  - apply built_no_own_parent. exact built_chart_unnamed_leaf.
Defined.

(** C7, counterexample.  Below a root whose name is the empty string, the
    loop of [ancestors_for] stops at once: the state [A] gets no ancestor
    and depth 1, although its chain of proper ancestors is the root.  In
    [chart_A_X], made by calls that return, the state [X] is its own
    parent: it has no chain of proper ancestors, and neither
    [ancestors_for] nor [depth_for] returns for it. *)
Lemma ancestors_for_not_chain :
  (built chart_unnamed
   /\ registered chart_unnamed "A"
   /\ "A" <> root chart_unnamed
   /\ parent_chain chart_unnamed "A" [root chart_unnamed]
   /\ (forall fuel, ancestors_for fuel chart_unnamed "A" = Some (inr [])
                    /\ depth_for fuel chart_unnamed "A" = Some (inr 1))
   /\ ~ (exists fuel l, ancestors_for fuel chart_unnamed "A" = Some (inr l)
                        /\ parent_chain chart_unnamed "A" l))
  /\ (constructed chart_A_X
      /\ validate chart_A_X = inr true
      /\ registered chart_A_X "X"
      /\ own_parent chart_A_X "X"
      /\ (forall fuel, ancestors_for fuel chart_A_X "X" = None
                       /\ depth_for fuel chart_A_X "X" = None)
      /\ ~ (exists l, parent_chain chart_A_X "X" l)).
Proof.
  split.
  - assert (Hanc : forall fuel, ancestors_for fuel chart_unnamed "A" = Some (inr [])).
    { intros fuel. unfold ancestors_for. simpl. now apply ancestors_loop_stop. }
    split; [exact built_chart_unnamed|]. split; [reflexivity|]. split; [discriminate|].
    split; [|split].
    + apply parent_chain_up with (p := ""); [reflexivity|].
      apply parent_chain_root. reflexivity.
    + intros fuel. split; auto. unfold depth_for. now rewrite Hanc.
    + intros (fuel & l & Hl & Hchain). rewrite Hanc in Hl. injection Hl as <-.
      inversion Hchain as [? Hget|]. discriminate Hget.
  - split; [exact constructed_chart_A_X|]. split; [reflexivity|].
    split; [reflexivity|]. split; [reflexivity|]. split.
    + intros fuel. unfold depth_for. now rewrite ancestors_for_chart_A_X.
    + intros [l Hl].
      assert (Hin : In "X" l).
      { inversion Hl as [? Hget | ? p ? Hget ?]; subst.
        - discriminate Hget.
        - injection Hget as <-. now left. }
      exact (parent_chain_proper _ _ _ Hl Hin).
Qed.

(** ** The least common ancestor of a state and itself *)




(** * Further properties of the code *)

(** ** What a registration changes *)

Lemma children_append_spec s child s' :
  children_append s child = Some s' ->
  exists cs, children s = Some cs
             /\ children s' = Some (cs ++ [child])
             /\ state_name s' = state_name s
             /\ state_transitions s' = state_transitions s
             /\ class_name s' = class_name s
             /\ initial_of s' = initial_of s.
Proof.
  destruct s; simpl; intros [= <-]; eexists; repeat split.
Qed.

Lemma transitions_append_spec s t s' :
  transitions_append s t = Some s' ->
  exists ts, state_transitions s = Some ts
             /\ state_transitions s' = Some (ts ++ [t])
             /\ state_name s' = state_name s
             /\ children s' = children s
             /\ class_name s' = class_name s
             /\ initial_of s' = initial_of s.
Proof.
  destruct s; simpl; intros [= <-]; eexists; repeat split.
Qed.

(** X1: a call of [register_state] that returns, with a parent registered
    before the call, stores the state under its name, records the parent,
    puts the name last in the list of children of the parent and changes
    nothing else: the parent keeps its name and transitions, the other
    states, the other parent entries, the transitions and the root are as
    before. *)
Theorem register_state_registers state parent self self' :
  dict_mem_key (_states self) (parent_key parent) = true ->
  register_state state parent self = (inr tt, self') ->
  exists p ps ps' cs,
    parent_key parent = Some p
    /\ p <> state_name state
    /\ state_for self (state_name state) = None
    /\ state_for self' (state_name state) = Some state
    /\ dict_get (_parent self') (state_name state) = Some (Some p)
    /\ state_for self p = Some ps /\ children ps = Some cs
    /\ state_for self' p = Some ps'
    /\ children ps' = Some (cs ++ [state_name state])
    /\ state_name ps' = state_name ps
    /\ state_transitions ps' = state_transitions ps
    /\ (forall k, k <> state_name state -> k <> p -> state_for self' k = state_for self k)
    /\ (forall k, k <> state_name state ->
                  dict_get (_parent self') k = dict_get (_parent self) k)
    /\ transitions self' = transitions self
    /\ root self' = root self.
Proof.
  unfold register_state, state_for, root.
  destruct (dict_mem (_states self) (state_name state)) eqn:Hfresh; [discriminate|].
  simpl. rewrite dict_get_set_eq.
  destruct (parent_key parent) as [p|]; simpl; [|discriminate].
  unfold dict_mem_key. simpl. intros Hmem.
  destruct (dict_get (_states self) p) as [ps|] eqn:Hps; [|discriminate].
  assert (Hne : state_name state <> p).
  { intros <-. apply dict_mem_false in Hfresh. congruence. }
  rewrite (dict_get_set_ne _ _ _ _ Hne), Hps.
  destruct (children_append ps (state_name state)) as [ps'|] eqn:Happ; [|discriminate].
  intros [= <-]. simpl.
  destruct (children_append_spec _ _ _ Happ) as (cs & Hcs & Hcs' & Hname & Hts & _).
  exists p, ps, ps', cs. repeat split; auto.
  - now apply dict_mem_false.
  - rewrite dict_get_set_ne by auto. apply dict_get_set_eq.
  - apply dict_get_set_eq.
  - apply dict_get_set_eq.
  - intros k Hk Hkp. rewrite !dict_get_set_ne by auto. reflexivity.
  - intros k Hk. now rewrite dict_get_set_ne by auto.
Qed.

Lemma register_state_registers_witness :
  exists ps',
    state_for (snd (register_state (CompoundState_init "A" (Some "A1") None None)
                                   (ParentName "R") chart_R)) "A"
    = Some (CompoundState_init "A" (Some "A1") None None)
    /\ state_for (snd (register_state (CompoundState_init "A" (Some "A1") None None)
                                      (ParentName "R") chart_R)) "R" = Some ps'
    /\ children ps' = Some ["A"].
Proof.
  destruct (register_state_registers (CompoundState_init "A" (Some "A1") None None)
              (ParentName "R") chart_R
              (snd (register_state (CompoundState_init "A" (Some "A1") None None)
                                   (ParentName "R") chart_R)))
    as (p & ps & ps' & cs & Hp & _ & _ & Hs & _ & Hps & Hcs & Hps' & Hcs' & _);
    [reflexivity | reflexivity |].
  injection Hp as <-.
  assert (Hcs0 : cs = []).
  { vm_compute in Hps. injection Hps as <-. vm_compute in Hcs. now injection Hcs as <-. }
  subst cs. exists ps'. repeat split; auto.
Defined.

(** ** What every built chart satisfies *)

Section DictKeys.
Context {V : Type}.
Implicit Types (d : dict V) (k : string) (v : V).

Lemma dict_mem_keys d k : dict_mem d k = true <-> In k (map fst d).
Proof.
  unfold dict_mem. induction d as [|[k' v'] d IH]; simpl.
  - split; [discriminate | contradiction].
  - destruct (String.eqb_spec k' k) as [->|Hne].
    + split; auto.
    + rewrite IH. split; auto. intros [H|H]; [contradiction | auto].
Qed.

Lemma dict_set_fresh d k v : dict_mem d k = false -> dict_set d k v = d ++ [(k, v)].
Proof.
  unfold dict_mem. induction d as [|[k' v'] d IH]; simpl; auto.
  destruct (k' =? k)%string; [discriminate|]. intros H. now rewrite IH.
Qed.

Lemma dict_set_keys_known d k v :
  dict_mem d k = true -> map fst (dict_set d k v) = map fst d.
Proof.
  unfold dict_mem. induction d as [|[k' v'] d IH]; simpl; [discriminate|].
  destruct (String.eqb_spec k' k) as [->|Hne]; simpl; auto.
  intros H. now rewrite IH.
Qed.

Lemma dict_set_keys_NoDup d k v : NoDup (map fst d) -> NoDup (map fst (dict_set d k v)).
Proof.
  intros Hnd. destruct (dict_mem d k) eqn:Hmem.
  - now rewrite dict_set_keys_known.
  - rewrite dict_set_fresh, map_app by auto. simpl.
    apply NoDup_rev in Hnd. rewrite <- (rev_involutive (map fst d ++ [k])).
    apply NoDup_rev. rewrite rev_app_distr. simpl. constructor; auto.
    rewrite <- in_rev. intros Hin. apply dict_mem_keys in Hin. congruence.
Qed.
End DictKeys.

Lemma composite_children s :
  isinstance_CompositeStateMixin s = true <-> exists cs, children s = Some cs.
Proof.
  destruct s; simpl; split; eauto; try discriminate; intros [cs H]; discriminate.
Qed.

(** The chart a successful [register_state] leaves, with the state that
    replaces the parent. *)
Lemma register_state_shape state parent self self' :
  register_state state parent self = (inr tt, self') ->
  dict_mem_key (_states self) (parent_key parent) = true ->
  exists p ps ps',
    parent_key parent = Some p
    /\ p <> state_name state
    /\ dict_get (_states self) (state_name state) = None
    /\ dict_get (_states self) p = Some ps
    /\ children_append ps (state_name state) = Some ps'
    /\ _parent self' = dict_set (_parent self) (state_name state) (Some p)
    /\ _states self' = dict_set (dict_set (_states self) (state_name state) state) p ps'
    /\ _root self' = _root self
    /\ transitions self' = transitions self.
Proof.
  unfold register_state.
  destruct (dict_mem (_states self) (state_name state)) eqn:Hfresh; [discriminate|].
  simpl. rewrite dict_get_set_eq.
  destruct (parent_key parent) as [p|]; simpl; [|discriminate].
  unfold dict_mem_key. simpl. intros Hreg Hmem.
  destruct (dict_get (_states self) p) as [ps|] eqn:Hps; [|discriminate].
  assert (Hne : state_name state <> p).
  { intros <-. apply dict_mem_false in Hfresh. congruence. }
  rewrite (dict_get_set_ne _ _ _ _ Hne), Hps in Hreg.
  destruct (children_append ps (state_name state)) as [ps'|] eqn:Happ; [|discriminate].
  injection Hreg as <-. exists p, ps, ps'. simpl. repeat split; auto.
  now apply dict_mem_false.
Qed.

Lemma register_transition_shape t self self' :
  register_transition t self = (inr tt, self') ->
  exists s s',
    dict_get (_states self) (from_state t) = Some s
    /\ transitions_append s t = Some s'
    /\ _states self' = dict_set (_states self) (from_state t) s'
    /\ transitions self' = transitions self ++ [t]
    /\ _parent self' = _parent self
    /\ _root self' = _root self.
Proof.
  unfold register_transition. simpl.
  destruct (dict_get (_states self) (from_state t)) as [s|] eqn:Hs; [|discriminate].
  destruct (transitions_append s t) as [s'|] eqn:Happ; [|discriminate].
  intros [= <-]. exists s, s'. simpl. repeat split; auto.
Qed.

Lemma registry_init name r description bootstrap :
  registry (StateChart_init name r description bootstrap).
Proof.
  constructor; unfold state_for; simpl.
  - intros k s. destruct (String.eqb_spec (state_name r) k); [|discriminate].
    now intros [= <-].
  - constructor; [intros [] | constructor].
  - intros k p. destruct (state_name r =? k)%string; discriminate.
  - intros t [].
Qed.

Lemma registry_register_state state parent self self' :
  registry self ->
  dict_mem_key (_states self) (parent_key parent) = true ->
  register_state state parent self = (inr tt, self') ->
  registry self'.
Proof.
  intros [Hnames Hkeys Hpar Htrans] Hmem Hreg.
  destruct (register_state_shape _ _ _ _ Hreg Hmem)
    as (p & ps & ps' & _ & Hne & Hfresh & Hps & Happ & Hparent' & Hstates' & _ & Hts').
  destruct (children_append_spec _ _ _ Happ) as (cs & Hcs & Hcs' & Hname & Htsps & _).
  assert (Hget : forall k, dict_get (_states self') k
                           = if (p =? k)%string then Some ps'
                             else if (state_name state =? k)%string then Some state
                                  else dict_get (_states self) k).
  { intros k. rewrite Hstates'.
    destruct (String.eqb_spec p k) as [<-|Hpk]; [apply dict_get_set_eq|].
    rewrite dict_get_set_ne by auto.
    destruct (String.eqb_spec (state_name state) k) as [<-|Hsk]; [apply dict_get_set_eq|].
    now rewrite dict_get_set_ne by auto. }
  assert (Hcomp : isinstance_CompositeStateMixin ps' = true).
  { apply composite_children. eauto. }
  constructor; unfold state_for in *.
  - intros k s. rewrite Hget.
    destruct (String.eqb_spec p k) as [<-|Hpk].
    + intros [= <-]. rewrite Hname. now apply Hnames.
    + destruct (String.eqb_spec (state_name state) k) as [<-|Hsk]; [now intros [= <-]|].
      apply Hnames.
  - rewrite Hstates'. now do 2 apply dict_set_keys_NoDup.
  - intros k q. rewrite Hparent'.
    destruct (String.eqb_spec (state_name state) k) as [<-|Hsk].
    + rewrite dict_get_set_eq. intros [= <-]. exists ps'. split; auto.
      rewrite Hget. now rewrite String.eqb_refl.
    + rewrite dict_get_set_ne by auto. intros Hk.
      destruct (Hpar k q Hk) as (qs & Hqs & Hq). rewrite Hget.
      destruct (String.eqb_spec p q) as [<-|Hpq]; [eauto|].
      destruct (String.eqb_spec (state_name state) q) as [<-|Hsq]; [congruence|eauto].
  - intros t Hin. rewrite Hts' in Hin.
    destruct (Htrans t Hin) as (s & ts & Hs & Hsts & Hint). rewrite Hget.
    destruct (String.eqb_spec p (from_state t)) as [Heq|Hpf].
    + exists ps', ts. repeat split; auto. rewrite Htsps. congruence.
    + destruct (String.eqb_spec (state_name state) (from_state t)) as [Heq|Hsf];
        [congruence|eauto].
Qed.

Lemma registry_register_transition t self self' :
  registry self ->
  register_transition t self = (inr tt, self') ->
  registry self'.
Proof.
  intros [Hnames Hkeys Hpar Htrans] Hreg.
  destruct (register_transition_shape _ _ _ Hreg)
    as (s & s' & Hs & Happ & Hstates' & Hts' & Hparent' & _).
  destruct (transitions_append_spec _ _ _ Happ) as (ts & Hsts & Hsts' & Hname & Hch & _).
  assert (Hget : forall k, dict_get (_states self') k
                           = if (from_state t =? k)%string then Some s'
                             else dict_get (_states self) k).
  { intros k. rewrite Hstates'.
    destruct (String.eqb_spec (from_state t) k) as [<-|Hne]; [apply dict_get_set_eq|].
    now rewrite dict_get_set_ne by auto. }
  constructor; unfold state_for in *.
  - intros k s0. rewrite Hget.
    destruct (String.eqb_spec (from_state t) k) as [<-|Hne]; [|apply Hnames].
    intros [= <-]. rewrite Hname. now apply Hnames.
  - rewrite Hstates'. now apply dict_set_keys_NoDup.
  - intros k q. rewrite Hparent'. intros Hk.
    destruct (Hpar k q Hk) as (qs & Hqs & Hq). rewrite Hget.
    destruct (String.eqb_spec (from_state t) q) as [<-|Hne]; [|eauto].
    exists s'. split; auto. apply composite_children.
    apply composite_children in Hq as [cs Hcs]. exists cs. congruence.
  - intros t0 Hin. rewrite Hts' in Hin. rewrite Hget.
    apply in_app_or in Hin as [Hin|[<-|[]]].
    + destruct (Htrans t0 Hin) as (s0 & ts0 & Hs0 & Hsts0 & Hint).
      destruct (String.eqb_spec (from_state t) (from_state t0)) as [Heq|Hne]; [|eauto].
      exists s', (ts ++ [t]). repeat split; auto.
      apply in_or_app. left. rewrite <- Heq in Hs0. congruence.
    + rewrite String.eqb_refl. exists s', (ts ++ [t]). repeat split; auto.
      apply in_or_app. right. now left.
Qed.

Lemma built_registry self : built self -> registry self.
Proof.
  induction 1.
  - apply registry_init.
  - eapply registry_register_state; eauto.
  - eapply registry_register_transition; eauto.
Qed.

(** X2: in a built chart the state names are distinct, every state is
    stored under its own name, and the parent mapping has an entry for
    exactly the registered names. *)
Theorem built_state_names self :
  built self ->
  NoDup (map fst (_states self))
  /\ (forall k s, state_for self k = Some s -> state_name s = k)
  /\ (forall k, dict_mem (_parent self) k = dict_mem (_states self) k).
Proof.
  intros Hb. split; [|split].
  - apply registry_keys. now apply built_registry.
  - apply registry_names. now apply built_registry.
  - apply hierarchy_keys. now apply built_hierarchy.
Qed.

Lemma built_state_names_witness :
  NoDup (map fst (_states example_chart))
  /\ (forall k s, state_for example_chart k = Some s -> state_name s = k)
  /\ (forall k, dict_mem (_parent example_chart) k = dict_mem (_states example_chart) k).
Proof.
  apply (built_state_names example_chart). exact built_example_chart.
Defined.

(** X3: in a built chart the root has no parent, and every other
    registered state has a parent that is a registered state with a list
    of children: a basic, history or final state is never a parent. *)
Theorem built_parents self k :
  built self -> registered self k ->
  (k = root self /\ dict_get (_parent self) k = Some None)
  \/ (k <> root self
      /\ exists p ps, dict_get (_parent self) k = Some (Some p)
                      /\ state_for self p = Some ps
                      /\ isinstance_CompositeStateMixin ps = true).
Proof.
  intros Hb Hk. pose proof (built_hierarchy _ Hb) as Hh.
  pose proof (built_registry _ Hb) as Hr.
  destruct (String.eqb_spec k (root self)) as [->|Hne].
  - left. split; auto. apply (hierarchy_root _ Hh).
  - right. split; auto.
    unfold registered in Hk. rewrite <- (hierarchy_keys _ Hh) in Hk.
    apply dict_mem_true in Hk as [v Hv].
    destruct (hierarchy_parent _ Hh k v Hv Hne) as (p & -> & _).
    destruct (registry_parents _ Hr k p Hv) as (ps & Hps & Hc). eauto.
Qed.

Lemma built_parents_witness :
  "A1" <> root example_chart
  /\ exists p ps, dict_get (_parent example_chart) "A1" = Some (Some p)
                  /\ state_for example_chart p = Some ps
                  /\ isinstance_CompositeStateMixin ps = true.
Proof.
  destruct (built_parents example_chart "A1" built_example_chart eq_refl) as [[H _]|H].
  - discriminate H.
  - exact H.
Defined.

(** X4: in a built chart every transition of the chart has a registered
    source state and is in the list of transitions of that state; the
    source part of rule C1 cannot fail. *)
Theorem built_transition_sources self t :
  built self -> In t (transitions self) ->
  dict_mem (_states self) (from_state t) = true
  /\ exists s ts, state_for self (from_state t) = Some s
                  /\ state_transitions s = Some ts /\ In t ts.
Proof.
  intros Hb Hin.
  destruct (registry_transitions _ (built_registry _ Hb) t Hin) as (s & ts & Hs & Hts & Hi).
  split; [|eauto]. apply dict_mem_true. eauto.
Qed.

Lemma built_transition_sources_witness :
  dict_mem (_states example_chart) (from_state transition_go) = true
  /\ exists s ts, state_for example_chart (from_state transition_go) = Some s
                  /\ state_transitions s = Some ts /\ In transition_go ts.
Proof.
  apply (built_transition_sources example_chart transition_go built_example_chart).
  simpl. auto.
Defined.

(** ** Charts assembled from new states *)

Lemma assembled_built self : assembled self -> built self.
Proof.
  induction 1.
  - apply built_init.
  - eapply built_register_state; eauto.
  - eapply built_register_transition; eauto.
Qed.

Lemma new_state_lists s :
  new_state s = true ->
  (forall cs, children s = Some cs -> cs = [])
  /\ (forall ts, state_transitions s = Some ts -> ts = []).
Proof.
  unfold new_state. intros H. apply andb_true_iff in H as [Hc Ht]. split.
  - intros cs Hcs. rewrite Hcs in Hc. now destruct cs.
  - intros ts Hts. rewrite Hts in Ht. now destruct ts.
Qed.

Lemma children_of_app parents k v p :
  children_of (parents ++ [(k, v)]) p
  = children_of parents p ++ (if optional_str_eqb v (Some p) then [k] else []).
Proof.
  unfold children_of. rewrite filter_app, map_app. simpl.
  now destruct (optional_str_eqb v (Some p)).
Qed.

Lemma optional_str_eqb_eq a b : optional_str_eqb a b = true <-> a = b.
Proof.
  destruct a as [x|], b as [y|]; simpl; split; try congruence.
  - intros H. apply String.eqb_eq in H. now subst.
  - intros [= ->]. apply String.eqb_refl.
Qed.

Lemma children_of_none (parents : dict (option string)) p :
  (forall k, dict_get parents k <> Some (Some p)) ->
  NoDup (map fst parents) ->
  children_of parents p = [].
Proof.
  unfold children_of. intros Hno Hnd.
  induction parents as [|[k v] parents IH]; simpl in *; auto.
  inversion Hnd as [|? ? Hnotin Hnd']; subst.
  destruct (optional_str_eqb v (Some p)) eqn:Hv.
  - apply optional_str_eqb_eq in Hv. subst v. exfalso. apply (Hno k).
    now rewrite String.eqb_refl.
  - apply IH; auto. intros k' Hk'. apply (Hno k').
    destruct (String.eqb_spec k k') as [->|Hne]; auto.
    exfalso. apply Hnotin. apply dict_mem_keys. apply dict_mem_true. eauto.
Qed.

Lemma built_parent_keys self : built self -> map fst (_parent self) = map fst (_states self).
Proof.
  induction 1 as [name r d b | self state parent self' Hb IH Hmem Hreg
                  | self t self' Hb IH Hreg].
  - reflexivity.
  - destruct (register_state_shape _ _ _ _ Hreg Hmem)
      as (p & ps & ps' & _ & Hne & Hfresh & Hps & _ & Hparent' & Hstates' & _).
    apply dict_mem_false in Hfresh.
    assert (Hfreshp : dict_mem (_parent self) (state_name state) = false).
    { now rewrite (hierarchy_keys _ (built_hierarchy _ Hb)). }
    rewrite Hparent', Hstates'.
    rewrite (dict_set_keys_known (dict_set (_states self) (state_name state) state) p ps').
    + rewrite (dict_set_fresh _ _ _ Hfreshp), (dict_set_fresh _ _ _ Hfresh), !map_app.
      now rewrite IH.
    + rewrite dict_mem_set. apply orb_true_iff. right. apply dict_mem_true. eauto.
  - destruct (register_transition_shape _ _ _ Hreg) as (s & s' & Hs & _ & Hstates' & _ & Hparent' & _).
    rewrite Hparent', Hstates', (dict_set_keys_known (_states self)); auto.
    apply dict_mem_true. eauto.
Qed.

Lemma filter_none {A : Type} (f : A -> bool) l :
  (forall x, In x l -> f x = false) -> filter f l = [].
Proof.
  induction l as [|a l IH]; simpl; auto.
  intros H. rewrite (H a) by now left. apply IH. intros x Hx. apply H. now right.
Qed.

(** In a chart assembled from new states, the lists kept in the states are
    the ones the two mappings of the chart describe. *)
Lemma assembled_mirror self :
  assembled self ->
  (forall p ps cs, state_for self p = Some ps -> children ps = Some cs ->
                   cs = children_of (_parent self) p)
  /\ (forall k s ts, state_for self k = Some s -> state_transitions s = Some ts ->
                     ts = transitions_from self k).
Proof.
  induction 1 as [name r d b Hnew | self state parent self' Ha [IHc IHt] Hnew Hmem Hreg
                  | self t self' Ha [IHc IHt] Hreg]; unfold state_for, transitions_from in *.
  - destruct (new_state_lists _ Hnew) as [Hc Ht]. simpl. split.
    + intros p ps cs. destruct (state_name r =? p)%string; [|discriminate].
      intros [= <-] Hcs. now apply Hc.
    + intros k s ts. destruct (state_name r =? k)%string; [|discriminate].
      intros [= <-] Hts. now apply Ht.
  - pose proof (assembled_built _ Ha) as Hb.
    pose proof (built_registry _ Hb) as Hr. pose proof (built_hierarchy _ Hb) as Hh.
    destruct (register_state_shape _ _ _ _ Hreg Hmem)
      as (p & ps & ps' & _ & Hne & Hfresh & Hps & Happ & Hparent' & Hstates' & _ & Hts').
    destruct (children_append_spec _ _ _ Happ) as (cs & Hcs & Hcs' & _ & Htsps & _).
    destruct (new_state_lists _ Hnew) as [Hnc Hnt].
    assert (Hfreshp : dict_mem (_parent self) (state_name state) = false).
    { rewrite (hierarchy_keys _ Hh). now apply dict_mem_false. }
    assert (Hget : forall k, dict_get (_states self') k
                             = if (p =? k)%string then Some ps'
                               else if (state_name state =? k)%string then Some state
                                    else dict_get (_states self) k).
    { intros k. rewrite Hstates'.
      destruct (String.eqb_spec p k) as [<-|Hpk]; [apply dict_get_set_eq|].
      rewrite dict_get_set_ne by auto.
      destruct (String.eqb_spec (state_name state) k) as [<-|Hsk]; [apply dict_get_set_eq|].
      now rewrite dict_get_set_ne by auto. }
    rewrite Hparent', Hts', (dict_set_fresh _ _ _ Hfreshp). split.
    + intros q qs qcs. rewrite Hget, children_of_app. simpl.
      destruct (String.eqb_spec p q) as [<-|Hpq].
      * intros [= <-] Hq. rewrite Hcs' in Hq. injection Hq as <-.
        f_equal. eauto.
      * destruct (String.eqb_spec (state_name state) q) as [<-|Hsq].
        -- intros [= <-] Hq. rewrite (Hnc _ Hq), app_nil_r.
           symmetry. apply children_of_none.
           ++ intros k Hk. destruct (registry_parents _ Hr k _ Hk) as (s0 & Hs0 & _).
              unfold state_for in Hs0. congruence.
           ++ rewrite (built_parent_keys _ Hb). apply (registry_keys _ Hr).
        -- intros Hq Hqcs. rewrite app_nil_r. eauto.
    + intros k s ts. rewrite Hget.
      destruct (String.eqb_spec p k) as [<-|Hpk].
      * intros [= <-] Hq. rewrite Htsps in Hq. eauto.
      * destruct (String.eqb_spec (state_name state) k) as [<-|Hsk]; [|eauto].
        intros [= <-] Hq. rewrite (Hnt _ Hq). symmetry.
        apply filter_none.
        intros t Hin. destruct (registry_transitions _ Hr t Hin) as (s0 & _ & Hs0 & _).
        unfold state_for in Hs0. apply String.eqb_neq. congruence.
  - destruct (register_transition_shape _ _ _ Hreg)
      as (s & s' & Hs & Happ & Hstates' & Hts' & Hparent' & _).
    destruct (transitions_append_spec _ _ _ Happ) as (ts & Hsts & Hsts' & _ & Hch & _).
    assert (Hget : forall k, dict_get (_states self') k
                             = if (from_state t =? k)%string then Some s'
                               else dict_get (_states self) k).
    { intros k. rewrite Hstates'.
      destruct (String.eqb_spec (from_state t) k) as [<-|Hne]; [apply dict_get_set_eq|].
      now rewrite dict_get_set_ne by auto. }
    rewrite Hparent', Hts'. split.
    + intros q qs qcs. rewrite Hget.
      destruct (String.eqb_spec (from_state t) q) as [<-|Hne]; [|eauto].
      intros [= <-] Hq. rewrite Hch in Hq. eauto.
    + intros k s0 ts0. rewrite Hget, filter_app. simpl.
      destruct (String.eqb_spec (from_state t) k) as [<-|Hne].
      * intros [= <-] Hq. rewrite Hsts' in Hq. injection Hq as <-. f_equal. eauto.
      * intros Hs0 Hq. rewrite app_nil_r. eauto.
Qed.

Lemma dict_get_In_iff {V : Type} (d : dict V) k v :
  NoDup (map fst d) -> (In (k, v) d <-> dict_get d k = Some v).
Proof.
  intros Hnd. split; [|apply dict_get_In].
  induction d as [|[k' v'] d IH]; simpl; [contradiction|].
  inversion Hnd as [|? ? Hnotin Hnd']; subst.
  intros [[= -> ->]|Hin].
  - now rewrite String.eqb_refl.
  - destruct (String.eqb_spec k' k) as [->|Hne]; auto.
    exfalso. apply Hnotin. apply (in_map fst) in Hin. exact Hin.
Qed.

Lemma children_of_In parents p c :
  NoDup (map fst parents) ->
  (In c (children_of parents p) <-> dict_get parents c = Some (Some p)).
Proof.
  intros Hnd. unfold children_of. rewrite in_map_iff. split.
  - intros ([k v] & <- & Hin). apply filter_In in Hin as [Hin Hv]. simpl in *.
    apply optional_str_eqb_eq in Hv. subst v. now apply dict_get_In_iff.
  - intros Hget. exists (c, Some p). split; auto. apply filter_In. split.
    + now apply dict_get_In_iff.
    + simpl. apply String.eqb_refl.
Qed.

Lemma children_of_NoDup (parents : dict (option string)) p :
  NoDup (map fst parents) -> NoDup (children_of parents p).
Proof.
  unfold children_of. induction parents as [|[k v] parents IH]; simpl; auto.
  intros Hnd. inversion Hnd as [|? ? Hnotin Hnd']; subst.
  destruct (optional_str_eqb v (Some p)); simpl; auto.
  constructor; auto. intros Hin. apply Hnotin.
  apply in_map_iff in Hin as (e & He & Hin). apply filter_In in Hin as [Hin _].
  rewrite <- He. now apply in_map.
Qed.

Lemma assembled_snd_register_state self state parent :
  assembled self ->
  new_state state = true ->
  dict_mem_key (_states self) (parent_key parent) = true ->
  fst (register_state state parent self) = inr tt ->
  assembled (snd (register_state state parent self)).
Proof.
  intros Ha Hnew Hmem Hfst. eapply assembled_register_state; eauto.
  rewrite <- Hfst. apply surjective_pairing.
Qed.

Lemma assembled_snd_register_transition self t :
  assembled self ->
  fst (register_transition t self) = inr tt ->
  assembled (snd (register_transition t self)).
Proof.
  intros Ha Hfst. eapply assembled_register_transition; eauto.
  rewrite <- Hfst. apply surjective_pairing.
Qed.

Lemma assembled_example_chart : assembled example_chart.
Proof.
  unfold example_chart, chart_states, chart_RAB, chart_R. cbv zeta.
  repeat first
    [ apply assembled_init; reflexivity
    | apply assembled_snd_register_transition; [|reflexivity]
    | apply assembled_snd_register_state; [|reflexivity|reflexivity|reflexivity] ].
Qed.

(** X5: in a chart assembled from new states, the list of children of a
    state is the list of the states registered with it as their parent, in
    the order of registration: a state is listed by its parent, once, and
    by no other state. *)
Theorem assembled_children self p ps cs :
  assembled self ->
  state_for self p = Some ps -> children ps = Some cs ->
  cs = children_of (_parent self) p
  /\ NoDup cs
  /\ (forall c, In c cs <-> dict_get (_parent self) c = Some (Some p)).
Proof.
  intros Ha Hps Hcs.
  pose proof (assembled_built _ Ha) as Hb.
  assert (Hnd : NoDup (map fst (_parent self))).
  { rewrite (built_parent_keys _ Hb). apply (registry_keys _ (built_registry _ Hb)). }
  rewrite (proj1 (assembled_mirror _ Ha) p ps cs Hps Hcs).
  split; [reflexivity|]. split.
  - now apply children_of_NoDup.
  - intros c. now apply children_of_In.
Qed.

Lemma assembled_children_witness :
  ["A1"; "A2"] = children_of (_parent example_chart) "A"
  /\ NoDup ["A1"; "A2"]
  /\ (forall c, In c ["A1"; "A2"] <-> dict_get (_parent example_chart) c = Some (Some "A")).
Proof.
  apply (assembled_children example_chart "A"
           (CompoundState ContractMixin_init "A" []
              {| on_entry := None; on_exit := None |} ["A1"; "A2"] (Some "A1")));
    [exact assembled_example_chart | reflexivity | reflexivity].
Defined.

(** X6: in a chart assembled from new states, the list of transitions of a
    state is the list of the transitions of the chart that leave this
    state, in the order of the chart. *)
Theorem assembled_transitions self k s ts :
  assembled self ->
  state_for self k = Some s -> state_transitions s = Some ts ->
  ts = transitions_from self k.
Proof.
  intros Ha Hs Hts. exact (proj2 (assembled_mirror _ Ha) k s ts Hs Hts).
Qed.

Lemma assembled_transitions_witness :
  [transition_go] = transitions_from example_chart "A1".
Proof.
  apply (assembled_transitions example_chart "A1"
           (BasicState ContractMixin_init "A1" [transition_go]
              {| on_entry := None; on_exit := None |}));
    [exact assembled_example_chart | reflexivity | reflexivity].
Defined.

(** ** The outcomes of [validate] *)

Lemma raises_tagged_intro {A : Type} tag msg :
  String.prefix (tag ++ ". ")%string msg = true ->
  raises_tagged tag (@inl exn A (InvalidStatechartError msg)).
Proof. intros H. exists msg. auto. Qed.

(** The first loop: it falls through when every transition passes C1 and
    C5, and raises the error of C1 or of C5 otherwise; without a failure of
    C5 the error is the one of C1. *)
Lemma first_loop_outcome self l :
  (forallb (check_C1 self) l && forallb check_C5 l = true
   /\ for_each (validate_transition self) l = inr tt)
  \/ (forallb (check_C1 self) l && forallb check_C5 l = false
      /\ (raises_tagged "C1" (for_each (validate_transition self) l)
          \/ raises_tagged "C5" (for_each (validate_transition self) l))
      /\ (forallb check_C5 l = true ->
          raises_tagged "C1" (for_each (validate_transition self) l))).
Proof.
  induction l as [|t l IH]; cbn [forallb for_each].
  - left. auto.
  - destruct (check_C1 self t) eqn:H1; [destruct (check_C5 t) eqn:H5|].
    + assert (Hv : validate_transition self t = inr tt).
      { unfold validate_transition. now rewrite H1, H5. }
      rewrite Hv. cbn [andb bind].
      destruct IH as [[He Hok]|(He & Hr & Hc)]; [left; auto|right].
      repeat split; auto.
    + assert (Hv : exists msg, validate_transition self t = inl (InvalidStatechartError msg)
                               /\ String.prefix "C5. " msg = true).
      { unfold validate_transition. rewrite H1, H5. eexists. split; reflexivity. }
      destruct Hv as (msg & -> & Hp). cbn [andb bind].
      right. split; [now destruct (forallb (check_C1 self) l)|]. split.
      * right. now apply raises_tagged_intro.
      * discriminate.
    + assert (Hv : exists msg, validate_transition self t = inl (InvalidStatechartError msg)
                               /\ String.prefix "C1. " msg = true).
      { unfold validate_transition. rewrite H1. eexists. split; reflexivity. }
      destruct Hv as (msg & -> & Hp). cbn [andb bind].
      right. split; auto. split.
      * left. now apply raises_tagged_intro.
      * intros _. now apply raises_tagged_intro.
Qed.

(** The loop over the states: each state is tested for C2, then C4, then
    C3. *)
Lemma state_loop_outcome self l :
  let r2 := forallb (fun item => check_C2 self (fst item) (snd item)) l in
  let r4 := forallb (fun item => check_C4 (snd item)) l in
  let r3 := forallb (fun item => check_C3 (snd item)) l in
  (r2 && r4 && r3 = true /\ for_each (validate_state self) l = inr tt)
  \/ (r2 && r4 && r3 = false
      /\ (raises_tagged "C2" (for_each (validate_state self) l)
          \/ raises_tagged "C4" (for_each (validate_state self) l)
          \/ raises_tagged "C3" (for_each (validate_state self) l))
      /\ (r4 = true -> r3 = true -> raises_tagged "C2" (for_each (validate_state self) l))
      /\ (r2 = true -> r3 = true -> raises_tagged "C4" (for_each (validate_state self) l))
      /\ (r2 = true -> r4 = true -> raises_tagged "C3" (for_each (validate_state self) l))).
Proof.
  induction l as [|[name state] l IH]; cbn [forallb for_each fst snd].
  - left. auto.
  - cbv zeta in IH. cbv zeta.
    set (r2 := forallb (fun item => check_C2 self (fst item) (snd item)) l) in *.
    set (r4 := forallb (fun item => check_C4 (snd item)) l) in *.
    set (r3 := forallb (fun item => check_C3 (snd item)) l) in *.
    destruct (check_C2 self name state) eqn:H2;
      [destruct (check_C4 state) eqn:H4; [destruct (check_C3 state) eqn:H3|]|].
    + assert (Hv : validate_state self (name, state) = inr tt).
      { unfold validate_state. now rewrite H2, H4, H3. }
      rewrite Hv. cbn [andb bind].
      destruct IH as [[He Hok]|(He & Hr & H2' & H4' & H3')]; [left; auto|right].
      repeat split; auto.
    + assert (Hv : exists msg, validate_state self (name, state)
                               = inl (InvalidStatechartError msg)
                               /\ String.prefix "C3. " msg = true).
      { unfold validate_state. rewrite H2, H4, H3. eexists. split; reflexivity. }
      destruct Hv as (msg & -> & Hp). cbn [andb bind].
      right. split; [destruct r2, r4; reflexivity|].
      split; [right; right; now apply raises_tagged_intro|].
      repeat split; try (intros; now apply raises_tagged_intro);
        intros; destruct r2, r4, r3; discriminate.
    + assert (Hv : exists msg, validate_state self (name, state)
                               = inl (InvalidStatechartError msg)
                               /\ String.prefix "C4. " msg = true).
      { unfold validate_state. rewrite H2, H4. eexists. split; reflexivity. }
      destruct Hv as (msg & -> & Hp). cbn [andb bind].
      right. split; [destruct r2; reflexivity|].
      split; [right; left; now apply raises_tagged_intro|].
      repeat split; try (intros; now apply raises_tagged_intro);
        intros; destruct r2, r4, r3; discriminate.
    + assert (Hv : exists msg, validate_state self (name, state)
                               = inl (InvalidStatechartError msg)
                               /\ String.prefix "C2. " msg = true).
      { unfold validate_state. rewrite H2. eexists. split; reflexivity. }
      destruct Hv as (msg & -> & Hp). cbn [andb bind].
      right. split; [reflexivity|].
      split; [left; now apply raises_tagged_intro|].
      repeat split; try (intros; now apply raises_tagged_intro);
        intros; discriminate.
Qed.

Lemma second_loop_outcome self :
  rule_C1 self = true ->
  (rule_C6 self = true /\ for_each (validate_target self) (transitions self) = inr tt)
  \/ (rule_C6 self = false
      /\ raises_tagged "C6" (for_each (validate_target self) (transitions self))).
Proof.
  intros H1. unfold rule_C6.
  destruct (second_loop_C6 self (transitions self) H1)
    as [[Hok Hall]|[Hr (t & st & Hin & He & Hc)]]; [left|right]; split; auto.
  - apply forallb_forall. intros t Hin.
    destruct (effective_target self t) as [st|] eqn:He; auto.
    rewrite check_C6_compound, (Hall t st Hin He). reflexivity.
  - destruct (forallb _ (transitions self)) eqn:Hf; auto.
    rewrite forallb_forall in Hf. specialize (Hf t Hin).
    rewrite He, check_C6_compound, Hc in Hf. discriminate.
Qed.

(** X7: [validate] returns [True] exactly when the chart respects the six
    rules, and otherwise raises [InvalidStatechartError] with the tag of
    one of them; it raises nothing else, the lookup of the source state in
    the last loop cannot fail once C1 has passed. *)
Theorem validate_outcome self :
  (validate self = inr true <->
   rule_C1 self && rule_C5 self && rule_C2 self && rule_C4 self && rule_C3 self
   && rule_C6 self = true)
  /\ (validate self = inr true
      \/ exists tag, In tag ["C1"; "C5"; "C2"; "C4"; "C3"; "C6"]
                     /\ raises_tagged tag (validate self)).
Proof.
  unfold validate, rule_C1, rule_C5, rule_C2, rule_C4, rule_C3.
  pose proof (first_loop_outcome self (transitions self)) as Hfirst.
  pose proof (state_loop_outcome self (_states self)) as Hstate. cbv zeta in Hstate.
  pose proof (second_loop_outcome self) as Hsecond. unfold rule_C1 in Hsecond.
  set (r1 := forallb (check_C1 self) (transitions self)) in *.
  set (r5 := forallb check_C5 (transitions self)) in *.
  set (r2 := forallb (fun item => check_C2 self (fst item) (snd item)) (_states self)) in *.
  set (r4 := forallb (fun item => check_C4 (snd item)) (_states self)) in *.
  set (r3 := forallb (fun item => check_C3 (snd item)) (_states self)) in *.
  set (r6 := rule_C6 self) in *.
  assert (Htags : forall tag (r : result unit) (k : unit -> result bool),
             In tag ["C1"; "C5"; "C2"; "C4"; "C3"; "C6"] ->
             raises_tagged tag r ->
             (bind r k = inr true <-> false = true)
             /\ (bind r k = inr true
                 \/ exists tag, In tag ["C1"; "C5"; "C2"; "C4"; "C3"; "C6"]
                                /\ raises_tagged tag (bind r k))).
  { intros tag r k Htag (msg & -> & Hp). split; [split; discriminate|].
    right. exists tag. split; auto. now apply raises_tagged_intro. }
  destruct Hfirst as [[He ->]|(He & Hr & _)].
  - apply andb_true_iff in He as [H1 H5]. rewrite H1, H5. cbn [bind andb].
    destruct Hstate as [[Hs ->]|(Hs & Hr & _)].
    + rewrite Hs. cbn [bind andb].
      destruct (Hsecond H1) as [[-> ->]|[-> Hr]]; cbn [bind].
      * split; [split; auto | left; auto].
      * apply (Htags "C6"); [simpl; auto 10 | exact Hr].
    + rewrite Hs. cbn [andb].
      destruct Hr as [Hr|[Hr|Hr]].
      * apply (Htags "C2"); [simpl; auto 10 | exact Hr].
      * apply (Htags "C4"); [simpl; auto 10 | exact Hr].
      * apply (Htags "C3"); [simpl; auto 10 | exact Hr].
  - rewrite He. cbn [andb].
    destruct Hr as [Hr|Hr].
    + apply (Htags "C1"); [simpl; auto 10 | exact Hr].
    + apply (Htags "C5"); [simpl; auto 10 | exact Hr].
Qed.

(** X8: when no transition fails C5 and some transition fails C1 (its
    source, or its non-empty target, is not a registered name), [validate]
    raises the error of rule C1. *)
Theorem validate_raises_C1 self :
  rule_C1 self = false -> rule_C5 self = true ->
  raises_tagged "C1" (validate self).
Proof.
  unfold rule_C1, rule_C5, validate. intros H1 H5.
  apply raises_tagged_bind.
  destruct (first_loop_outcome self (transitions self)) as [[He _]|(_ & _ & Hc)]; auto.
  rewrite H1 in He. discriminate.
Qed.

Lemma validate_raises_C1_witness :
  fst (register_transition transition_nowhere example_chart) = inr tt
  /\ raises_tagged "C1" (validate chart_nowhere).
Proof.
  split; [reflexivity|].
  apply (validate_raises_C1 chart_nowhere); reflexivity.
Defined.

(** X9: on a chart whose transitions pass C1 and C5, a failure of one of
    the rules on the states, the two others being respected, makes
    [validate] raise the error of that rule: C2 for a history state whose
    parent is not a compound state, C4 for a state with an empty list of
    children, C3 for a compound state whose initial state is not one of its
    children. *)
Theorem validate_raises_state_rule self :
  rule_C1 self = true -> rule_C5 self = true ->
  (rule_C2 self = false -> rule_C4 self = true -> rule_C3 self = true ->
   raises_tagged "C2" (validate self))
  /\ (rule_C4 self = false -> rule_C2 self = true -> rule_C3 self = true ->
      raises_tagged "C4" (validate self))
  /\ (rule_C3 self = false -> rule_C2 self = true -> rule_C4 self = true ->
      raises_tagged "C3" (validate self)).
Proof.
  intros H1 H5. unfold validate.
  rewrite (first_loop_passes self H1 H5). cbn [bind].
  unfold rule_C2, rule_C4, rule_C3.
  destruct (state_loop_outcome self (_states self))
    as [[Hs _]|(_ & _ & H2 & H4 & H3)]; cbv zeta in *.
  - repeat split; intros Hf Ha Hb; rewrite Hf, ?Ha, ?Hb in Hs; discriminate.
  - repeat split; intros Hf Ha Hb; apply raises_tagged_bind; auto.
Qed.

Lemma validate_raises_state_rule_witness :
  raises_tagged "C2" (validate chart_history)
  /\ raises_tagged "C4" (validate chart_childless)
  /\ raises_tagged "C3" (validate chart_initial).
Proof.
  split; [|split].
  - apply (validate_raises_state_rule chart_history); reflexivity.
  - apply (validate_raises_state_rule chart_childless); reflexivity.
  - apply (validate_raises_state_rule chart_initial); reflexivity.
Defined.

(** ** The structural queries *)

(** X10: in a built chart, the ancestors of a state whose parent has a
    non-empty name are this parent followed by the ancestors of the parent,
    and its depth is the depth of the parent plus 1. *)
Theorem ancestors_for_parent self s p :
  built self ->
  dict_get (_parent self) s = Some (Some p) -> p <> "" ->
  exists l, forall fuel, S (length l) <= fuel ->
    ancestors_for fuel self p = Some (inr l)
    /\ ancestors_for fuel self s = Some (inr (p :: l))
    /\ depth_for fuel self p = Some (inr (1 + length l))
    /\ depth_for fuel self s = Some (inr (2 + length l)).
Proof.
  intros Hb Hs Hp. pose proof (built_hierarchy _ Hb) as Hh.
  destruct (hierarchy_walk _ Hh s _ Hs) as [l0 Hw].
  inversion Hw as [? Hstop | ? v l _ Hget Hw']; subst.
  - rewrite nonempty_truthy in Hstop by auto. discriminate.
  - exists l. intros fuel Hfuel.
    assert (Hap : ancestors_for fuel self p = Some (inr l)).
    { unfold ancestors_for. rewrite Hget.
      rewrite (walk_loop _ _ _ Hw' fuel []) by lia. reflexivity. }
    assert (Has : ancestors_for fuel self s = Some (inr (p :: l))).
    { unfold ancestors_for. rewrite Hs.
      rewrite (walk_loop _ _ _ Hw fuel []) by (simpl; lia). reflexivity. }
    repeat split; auto.
    + now apply depth_for_ancestors.
    + now apply depth_for_ancestors in Has.
Qed.

Lemma ancestors_for_parent_witness :
  exists l, forall fuel, S (length l) <= fuel ->
    ancestors_for fuel example_chart "A" = Some (inr l)
    /\ ancestors_for fuel example_chart "A1" = Some (inr ("A" :: l))
    /\ depth_for fuel example_chart "A" = Some (inr (1 + length l))
    /\ depth_for fuel example_chart "A1" = Some (inr (2 + length l)).
Proof.
  apply (ancestors_for_parent example_chart "A1" "A");
    [exact built_example_chart | reflexivity | discriminate].
Defined.

(** X11: in a built chart, a state returned by [least_common_ancestor] is
    an ancestor of both arguments and the nearest one: every other common
    ancestor is one of its own ancestors.  [None] is returned only when
    the two lists of ancestors have no state in common. *)
Theorem least_common_ancestor_nearest self a b :
  built self -> registered self a -> registered self b ->
  exists la lb r n, forall fuel, n <= fuel ->
    ancestors_for fuel self a = Some (inr la)
    /\ ancestors_for fuel self b = Some (inr lb)
    /\ least_common_ancestor fuel self a b = Some (inr r)
    /\ match r with
       | Some x =>
           In x la /\ In x lb
           /\ exists lx, ancestors_for fuel self x = Some (inr lx)
                         /\ forall c, In c la -> In c lb -> c = x \/ In c lx
       | None => forall c, In c la -> ~ In c lb
       end.
Proof.
  intros Hb Ha Hb'. apply built_hierarchy in Hb.
  destruct (hierarchy_ancestors_for self a Hb Ha) as (va & la & _ & Hwa & Hfa).
  destruct (hierarchy_ancestors_for self b Hb Hb') as (vb & lb & _ & Hwb & Hfb).
  exists la, lb, (find (fun s => str_in s lb) la), (length la + length lb).
  intros fuel Hfuel.
  split; [apply Hfa; lia|]. split; [apply Hfb; lia|]. split.
  { unfold least_common_ancestor. rewrite Hfa, Hfb by lia. reflexivity. }
  destruct (find (fun s => str_in s lb) la) as [x|] eqn:Hfind.
  - apply find_split in Hfind as (a1 & a2 & -> & Hx & Ha1).
    apply str_in_In in Hx. split; [apply in_or_app; right; now left|]. split; auto.
    pose proof (walk_suffix _ _ _ _ _ Hwa) as Hwx.
    inversion Hwx as [|? v ? _ Hget Hw2]; subst.
    exists a2. split.
    + unfold ancestors_for. rewrite Hget.
      rewrite (walk_loop _ _ _ Hw2 fuel []); auto.
      rewrite length_app in Hfuel. simpl in Hfuel. lia.
    + intros c Hca Hcb. apply in_app_or in Hca as [Hc|[Hc|Hc]]; auto.
      specialize (Ha1 c Hc). apply str_in_not_In in Ha1. contradiction.
  - intros c Hc. apply str_in_not_In. exact (find_none _ _ Hfind c Hc).
Qed.

Lemma least_common_ancestor_nearest_witness :
  exists la lb r n, forall fuel, n <= fuel ->
    ancestors_for fuel example_chart "A1" = Some (inr la)
    /\ ancestors_for fuel example_chart "A2" = Some (inr lb)
    /\ least_common_ancestor fuel example_chart "A1" "A2" = Some (inr r)
    /\ match r with
       | Some x =>
           In x la /\ In x lb
           /\ exists lx, ancestors_for fuel example_chart x = Some (inr lx)
                         /\ forall c, In c la -> In c lb -> c = x \/ In c lx
       | None => forall c, In c la -> ~ In c lb
       end.
Proof.
  apply (least_common_ancestor_nearest example_chart "A1" "A2");
    [exact built_example_chart | reflexivity | reflexivity].
Defined.

(** X12: in a built chart without empty names, two registered states other
    than the root always have a common ancestor: [least_common_ancestor]
    returns a state, the root if no nearer one, and never [None]. *)
Theorem least_common_ancestor_found self a b :
  built self -> nonempty_names self ->
  registered self a -> registered self b ->
  a <> root self -> b <> root self ->
  exists x n, forall fuel, n <= fuel ->
    least_common_ancestor fuel self a b = Some (inr (Some x)).
Proof.
  intros Hb Hne Ha Hb' Har Hbr. apply built_hierarchy in Hb.
  destruct (hierarchy_ancestors_for self a Hb Ha) as (va & la & Hva & Hwa & Hfa).
  destruct (hierarchy_ancestors_for self b Hb Hb') as (vb & lb & Hvb & Hwb & Hfb).
  pose proof (walk_parent_chain self Hb Hne _ _ Hwa a Hva) as Hca.
  pose proof (walk_parent_chain self Hb Hne _ _ Hwb b Hvb) as Hcb.
  destruct (proj2 (parent_chain_root_last self Hb a la Hca) Har) as [la' ->].
  destruct (proj2 (parent_chain_root_last self Hb b lb Hcb) Hbr) as [lb' ->].
  destruct (find (fun s => str_in s (lb' ++ [root self])) (la' ++ [root self]))
    as [x|] eqn:Hfind.
  - exists x, (length (la' ++ [root self]) + length (lb' ++ [root self])).
    intros fuel Hfuel. unfold least_common_ancestor.
    rewrite Hfa, Hfb by lia. now rewrite Hfind.
  - exfalso.
    assert (Hin : In (root self) (la' ++ [root self])) by (apply in_or_app; right; now left).
    pose proof (find_none _ _ Hfind _ Hin) as H. simpl in H.
    apply str_in_not_In in H. apply H. apply in_or_app. right. now left.
Qed.

Lemma least_common_ancestor_found_witness :
  exists x n, forall fuel, n <= fuel ->
    least_common_ancestor fuel example_chart "A1" "B1" = Some (inr (Some x)).
Proof.
  apply (least_common_ancestor_found example_chart "A1" "B1");
    [exact built_example_chart | exact nonempty_names_example_chart
     | reflexivity | reflexivity | discriminate | discriminate].
Defined.

(** ** Descendants *)

Lemma append_children (cs : list string) : forall todo descendants,
  fold_left (fun lists child => (fst lists ++ [child], snd lists ++ [child]))
            cs (todo, descendants)
  = (todo ++ cs, descendants ++ cs).
Proof.
  induction cs as [|c cs IH]; intros todo descendants; simpl.
  - now rewrite !app_nil_r.
  - rewrite IH, <- !app_assoc. reflexivity.
Qed.

(** One iteration of the loop of [descendants_for]. *)
Lemma descendants_loop_step fuel states state todo descendants :
  descendants_loop (S fuel) states (state :: todo) descendants
  = match dict_get states state with
    | None => Some (inl (KeyError (Some state)))
    | Some s =>
        match children s with
        | Some cs => descendants_loop fuel states (todo ++ cs) (descendants ++ cs)
        | None => descendants_loop fuel states todo descendants
        end
    end.
Proof.
  cbn [descendants_loop]. destruct (dict_get states state) as [s|]; auto.
  destruct (children s) as [cs|]; auto. now rewrite append_children.
Qed.

Lemma descendant_of_cases states s d :
  descendant_of states s d <->
  child_of states s d \/ exists c, child_of states s c /\ descendant_of states c d.
Proof.
  split.
  - inversion 1; subst; [now left | right; eauto].
  - intros [H|(c & Hc & Hd)]; [now constructor|].
    apply descendant_below with (c := c); auto.
Qed.

(** What the loop returns: the names it started with, and every name
    below a state it was given to consider. *)
Lemma descendants_loop_members states fuel : forall todo descendants r,
  descendants_loop fuel states todo descendants = Some (inr r) ->
  forall d, In d r <->
            In d descendants \/ exists s, In s todo /\ descendant_of states s d.
Proof.
  induction fuel as [|fuel IH]; intros todo descendants r.
  - destruct todo; simpl; [|discriminate]. intros [= <-] d. split; auto.
    intros [H|(s & [] & _)]; auto.
  - destruct todo as [|state todo].
    + simpl. intros [= <-] d. split; auto. intros [H|(s & [] & _)]; auto.
    + rewrite descendants_loop_step.
      destruct (dict_get states state) as [s|] eqn:Hs; [|discriminate].
      destruct (children s) as [cs|] eqn:Hcs; intros Hr d; rewrite (IH _ _ _ Hr d).
      * rewrite in_app_iff. split.
        -- intros [[H|H]|(w & Hw & Hd)]; auto.
           ++ right. exists state. split; [now left|]. constructor. exists s, cs. auto.
           ++ apply in_app_or in Hw as [Hw|Hw].
              ** right. exists w. split; [now right | auto].
              ** right. exists state. split; [now left|].
                 apply descendant_below with (c := w); auto. exists s, cs. auto.
        -- intros [H|(w & [<-|Hw] & Hd)]; auto.
           ++ apply descendant_of_cases in Hd
                as [(s' & cs' & Hs' & Hcs' & Hin)|(c & (s' & cs' & Hs' & Hcs' & Hin) & Hd)];
                rewrite Hs in Hs'; injection Hs' as <-; rewrite Hcs in Hcs';
                injection Hcs' as <-.
              ** auto.
              ** right. exists c. split; auto. apply in_or_app. now right.
           ++ right. exists w. split; auto. apply in_or_app. now left.
      * split.
        -- intros [H|(w & Hw & Hd)]; auto. right. exists w. split; [now right | auto].
        -- intros [H|(w & [<-|Hw] & Hd)]; auto.
           ++ exfalso. apply descendant_of_cases in Hd
                as [(s' & cs' & Hs' & Hcs' & _)|(c & (s' & cs' & Hs' & Hcs' & _) & _)];
                congruence.
           ++ right. exists w. auto.
Qed.

(** More iterations do not change what the loop returns. *)
Lemma descendants_loop_more states fuel : forall todo descendants r,
  descendants_loop fuel states todo descendants = Some r ->
  forall fuel', fuel <= fuel' ->
  descendants_loop fuel' states todo descendants = Some r.
Proof.
  induction fuel as [|fuel IH]; intros todo descendants r.
  - destruct todo; simpl; [|discriminate]. intros [= <-] fuel' _. now destruct fuel'.
  - destruct todo as [|state todo].
    + simpl. intros [= <-] fuel' _. now destruct fuel'.
    + intros Hr fuel' Hle. destruct fuel' as [|fuel']; [lia|].
      rewrite descendants_loop_step in *.
      destruct (dict_get states state) as [s|]; auto.
      destruct (children s) as [cs|]; apply IH; auto; lia.
Qed.

(** X13: when [descendants_for] returns, the list holds exactly the states
    reached from the given state by following lists of children, one step
    at least; the state itself is in the list only if it is below
    itself. *)
Theorem descendants_for_members fuel self state r :
  descendants_for fuel self state = Some (inr r) ->
  forall d, In d r <-> descendant_of (_states self) state d.
Proof.
  unfold descendants_for. intros Hr d.
  rewrite (descendants_loop_members _ _ _ _ _ Hr d). split.
  - intros [[]|(s & [<-|[]] & Hd)]. exact Hd.
  - intros Hd. right. exists state. split; [now left | auto].
Qed.

Lemma descendants_for_members_witness :
  descendants_for 6 example_chart "R" = Some (inr ["A"; "B"; "A1"; "A2"; "B1"])
  /\ (In "A1" ["A"; "B"; "A1"; "A2"; "B1"]
      <-> descendant_of (_states example_chart) "R" "A1").
Proof.
  split; [reflexivity|].
  apply (descendants_for_members 6 example_chart "R"). reflexivity.
Defined.

(** *** The loop ends on a chart assembled from new states *)

Lemma NoDup_split_unique {A : Type} (x : A) : forall a b a' b',
  NoDup (a ++ x :: b) -> a ++ x :: b = a' ++ x :: b' -> a = a' /\ b = b'.
Proof.
  induction a as [|y a IH]; intros b a' b' Hnd Heq.
  - destruct a' as [|y' a']; simpl in *.
    + injection Heq as <-. auto.
    + injection Heq as <- ->. inversion Hnd as [|? ? Hnotin _]; subst.
      exfalso. apply Hnotin. apply in_or_app. right. now left.
  - destruct a' as [|y' a']; simpl in *.
    + injection Heq as -> <-. inversion Hnd as [|? ? Hnotin _]; subst.
      exfalso. apply Hnotin. apply in_or_app. right. now left.
    + injection Heq as <- Heq. inversion Hnd as [|? ? _ Hnd']; subst.
      destruct (IH _ _ _ Hnd' Heq) as [-> ->]. auto.
Qed.

(** In a built chart an entry of the parent mapping comes after the entry
    of the parent it records. *)
Lemma built_parents_ordered self :
  built self ->
  forall l1 c p l2, _parent self = l1 ++ (c, Some p) :: l2 -> In p (map fst l1).
Proof.
  induction 1 as [name r d b | self state parent self' Hb IH Hmem Hreg
                  | self t self' Hb IH Hreg]; intros l1 c p l2 Heq.
  - simpl in Heq. destruct l1 as [|e [|e' l1]]; simpl in Heq; discriminate.
  - destruct (register_state_shape _ _ _ _ Hreg Hmem)
      as (p0 & ps & ps' & _ & Hne & Hfresh & Hps & _ & Hparent' & _).
    pose proof (built_hierarchy _ Hb) as Hh.
    assert (Hfreshp : dict_mem (_parent self) (state_name state) = false).
    { rewrite (hierarchy_keys _ Hh). now apply dict_mem_false. }
    rewrite Hparent', (dict_set_fresh _ _ _ Hfreshp) in Heq.
    destruct (exists_last (l := (c, Some p) :: l2)) as (l2' & e & Hlast); [discriminate|].
    rewrite Hlast, app_assoc in Heq. apply app_inj_tail in Heq as [Heq He].
    destruct l2' as [|e' l2'].
    + simpl in Hlast. destruct l2; [|destruct l2; discriminate].
      injection Hlast as <-. injection He as _ Hp0. rewrite app_nil_r in Heq.
      subst l1 p0.
      apply dict_mem_keys. rewrite (hierarchy_keys _ Hh). apply dict_mem_true. eauto.
    + simpl in Hlast. injection Hlast as <- _. eapply IH. eauto.
  - destruct (register_transition_shape _ _ _ Hreg) as (_ & _ & _ & _ & _ & _ & Hparent' & _).
    rewrite Hparent' in Heq. eauto.
Qed.

Section DescendantsEnd.
Variable states : dict State.
Hypothesis keys_NoDup : NoDup (map fst states).
Hypothesis children_after :
  forall pre k suf, map fst states = pre ++ k :: suf ->
  forall c, child_of states k c -> In c suf.

(** The loop returns from the worklist [todo]. *)
Let returns (todo : list string) : Prop :=
  forall descendants, exists fuel r,
    descendants_loop fuel states todo descendants = Some (inr r).

Lemma children_in_suffix pre suf h s cs :
  map fst states = pre ++ suf -> In h suf ->
  dict_get states h = Some s -> children s = Some cs ->
  incl cs suf.
Proof.
  intros Hkeys Hh Hs Hcs c Hc.
  apply in_split in Hh as (s1 & s2 & ->).
  rewrite app_assoc in Hkeys.
  assert (In c s2) by (eapply children_after; eauto; exists s, cs; auto).
  apply in_or_app. right. now right.
Qed.

Lemma returns_step h todo s :
  dict_get states h = Some s ->
  returns (todo ++ match children s with Some cs => cs | None => [] end) ->
  returns (h :: todo).
Proof.
  intros Hs Hret descendants.
  destruct (children s) as [cs|] eqn:Hcs.
  - destruct (Hret (descendants ++ cs)) as (fuel & r & Hr).
    exists (S fuel), r. now rewrite descendants_loop_step, Hs, Hcs.
  - rewrite app_nil_r in Hret. destruct (Hret descendants) as (fuel & r & Hr).
    exists (S fuel), r. now rewrite descendants_loop_step, Hs, Hcs.
Qed.

Lemma count_occ_first (k : string) : forall todo n,
  count_occ string_dec todo k = S n ->
  exists t1 t2, todo = t1 ++ k :: t2 /\ ~ In k t1 /\ count_occ string_dec t2 k = n.
Proof.
  induction todo as [|h todo IH]; intros n; simpl; [discriminate|].
  destruct (string_dec h k) as [->|Hne].
  - intros [= <-]. exists [], todo. auto.
  - intros Hn. destruct (IH n Hn) as (t1 & t2 & -> & Hnotin & Hc).
    exists (h :: t1), t2. repeat split; auto. intros [H|H]; auto.
Qed.

Lemma returns_suffix : forall suf pre,
  map fst states = pre ++ suf ->
  forall todo, incl todo suf -> returns todo.
Proof.
  induction suf as [|k suf IH]; intros pre Hkeys.
  - intros todo Hincl descendants. destruct todo as [|h todo].
    + exists 0, descendants. reflexivity.
    + destruct (Hincl h). now left.
  - assert (Hkeys' : map fst states = (pre ++ [k]) ++ suf) by now rewrite <- app_assoc.
    specialize (IH _ Hkeys').
    assert (Hk : ~ In k suf).
    { pose proof keys_NoDup as Hnd. rewrite Hkeys in Hnd. apply NoDup_remove_2 in Hnd.
      intros H. apply Hnd. apply in_or_app. now right. }
    assert (Hreg : forall h, In h (k :: suf) -> exists s, dict_get states h = Some s).
    { intros h Hh. apply dict_mem_true. apply dict_mem_keys. rewrite Hkeys.
      apply in_or_app. now right. }
    assert (Hbelow : forall h s, In h (k :: suf) -> dict_get states h = Some s ->
               incl (match children s with Some cs => cs | None => [] end) suf).
    { intros h s Hh Hs. destruct (children s) as [cs|] eqn:Hcs; [|intros c []].
      destruct Hh as [<-|Hh].
      - intros c Hc. apply (children_after pre k suf Hkeys). exists s, cs. auto.
      - eapply (children_in_suffix (pre ++ [k]) suf); eauto. }
    assert (Hcount : forall n todo,
               count_occ string_dec todo k = n -> incl todo (k :: suf) -> returns todo).
    { induction n as [|n IHn]; intros todo Hc Hincl.
      - apply IH. intros h Hh. destruct (Hincl h Hh) as [<-|]; auto.
        exfalso. apply (count_occ_not_In string_dec) in Hc; auto.
      - destruct (count_occ_first k todo n Hc) as (t1 & t2 & -> & Hnotin & Hc2).
        clear Hc. revert t2 Hc2 Hincl Hnotin.
        induction t1 as [|h t1 IHt1]; intros t2 Hc2 Hincl Hnotin.
        + simpl in *. destruct (Hreg k) as [s Hs]; [now left|].
          apply (returns_step k t2 s Hs).
          pose proof (Hbelow k s (or_introl eq_refl) Hs) as Hcs.
          apply IHn.
          * rewrite count_occ_app, Hc2.
            rewrite (proj1 (count_occ_not_In string_dec _ k)); auto.
          * intros c Hc. apply in_app_or in Hc as [Hc|Hc].
            -- apply Hincl. now right.
            -- right. now apply Hcs.
        + assert (Hh : In h suf).
          { destruct (Hincl h) as [<-|H]; [now left| |auto].
            exfalso. apply Hnotin. now left. }
          destruct (Hreg h) as [s Hs]; [now right|].
          pose proof (Hbelow h s (or_intror Hh) Hs) as Hcs.
          simpl. apply (returns_step h _ s Hs). rewrite <- app_assoc. simpl.
          apply IHt1.
          * rewrite count_occ_app, Hc2.
            rewrite (proj1 (count_occ_not_In string_dec _ k)); auto.
          * intros c Hc. apply in_app_or in Hc as [Hc|[<-|Hc]].
            -- apply Hincl. right. apply in_or_app. now left.
            -- now left.
            -- apply in_app_or in Hc as [Hc|Hc].
               ++ apply Hincl. right. apply in_or_app. right. now right.
               ++ right. now apply Hcs.
          * intros H. apply Hnotin. now right. }
    intros todo Hincl. now apply (Hcount _ todo eq_refl).
Qed.

(** From a registered state the loop returns, and keeps returning the
    same list with more iterations. *)
Lemma descendants_loop_returns state :
  dict_mem states state = true ->
  exists fuel r, forall fuel', fuel <= fuel' ->
    descendants_loop fuel' states [state] [] = Some (inr r).
Proof.
  intros Hreg.
  destruct (returns_suffix (map fst states) [] eq_refl [state]) with (descendants := @nil string)
    as (fuel & r & Hr).
  - intros h [<-|[]]. now apply dict_mem_keys.
  - exists fuel, r. intros fuel' Hle. eapply descendants_loop_more; eauto.
Qed.
End DescendantsEnd.

(** In a chart assembled from new states, the lists of children say what
    the parent mapping says. *)
Lemma assembled_child_parent self p c :
  assembled self ->
  (child_of (_states self) p c <-> dict_get (_parent self) c = Some (Some p)).
Proof.
  intros Ha. pose proof (assembled_built _ Ha) as Hb.
  assert (Hnd : NoDup (map fst (_parent self))).
  { rewrite (built_parent_keys _ Hb). apply (registry_keys _ (built_registry _ Hb)). }
  split.
  - intros (s & cs & Hs & Hcs & Hin).
    rewrite (proj1 (assembled_mirror _ Ha) p s cs Hs Hcs) in Hin.
    now apply children_of_In in Hin.
  - intros Hc.
    destruct (registry_parents _ (built_registry _ Hb) c p Hc) as (ps & Hps & Hcomp).
    apply composite_children in Hcomp as [cs Hcs].
    exists ps, cs. repeat split; auto.
    rewrite (proj1 (assembled_mirror _ Ha) p ps cs Hps Hcs).
    now apply children_of_In.
Qed.

(** In a chart assembled from new states, the children of a state are
    registered after it. *)
Lemma assembled_children_after self :
  assembled self ->
  forall pre k suf, map fst (_states self) = pre ++ k :: suf ->
  forall c, child_of (_states self) k c -> In c suf.
Proof.
  intros Ha pre k suf Hkeys c Hc.
  pose proof (assembled_built _ Ha) as Hb.
  pose proof (registry_keys _ (built_registry _ Hb)) as Hnd.
  apply (assembled_child_parent self k c Ha) in Hc.
  apply dict_get_In in Hc. apply in_split in Hc as (l1 & l2 & Hsplit).
  pose proof (built_parents_ordered self Hb _ _ _ _ Hsplit) as Hk.
  apply in_split in Hk as (m1 & m2 & Hm).
  rewrite Hkeys in Hnd.
  rewrite <- (built_parent_keys _ Hb), Hsplit, map_app, Hm in Hkeys. simpl in Hkeys.
  rewrite <- app_assoc in Hkeys. simpl in Hkeys.
  destruct (NoDup_split_unique k _ _ _ _ Hnd (eq_sym Hkeys)) as [_ ->].
  apply in_or_app. right. now left.
Qed.

(** X14: in a chart assembled from new states, [descendants_for] returns
    for every registered state, given enough iterations; for a name that
    is not registered it raises [KeyError]. *)
Theorem descendants_for_returns self state :
  assembled self ->
  (registered self state ->
   exists r n, forall fuel, n <= fuel ->
     descendants_for fuel self state = Some (inr r))
  /\ (state_for self state = None ->
      forall fuel, descendants_for (S fuel) self state = Some (inl (KeyError (Some state)))).
Proof.
  intros Ha. split.
  - intros Hreg. pose proof (assembled_built _ Ha) as Hb.
    destruct (descendants_loop_returns (_states self)
                (registry_keys _ (built_registry _ Hb))
                (assembled_children_after self Ha) state Hreg) as (fuel & r & Hr).
    exists r, fuel. exact Hr.
  - unfold state_for, descendants_for. intros Hnone fuel.
    now rewrite descendants_loop_step, Hnone.
Qed.

Lemma descendants_for_returns_witness :
  (exists r n, forall fuel, n <= fuel ->
     descendants_for fuel example_chart "R" = Some (inr r))
  /\ forall fuel, descendants_for (S fuel) example_chart "Z" = Some (inl (KeyError (Some "Z"))).
Proof.
  destruct (descendants_for_returns example_chart "R" assembled_example_chart) as [H _].
  destruct (descendants_for_returns example_chart "Z" assembled_example_chart) as [_ H'].
  split; [apply H | apply H']; reflexivity.
Defined.

Lemma descendant_of_snoc states s p d :
  descendant_of states s p -> child_of states p d -> descendant_of states s d.
Proof.
  induction 1 as [s c Hc | s c p Hc Hd IH]; intros Hpd.
  - apply descendant_below with (c := c); auto. now constructor.
  - apply descendant_below with (c := c); auto.
Qed.

(** A state below [s] has [s] on the walk from its parent. *)
Lemma descendant_on_walk self s d :
  assembled self -> nonempty_names self ->
  descendant_of (_states self) s d ->
  exists v l, dict_get (_parent self) d = Some v /\ walk (_parent self) v l /\ In s l.
Proof.
  intros Ha Hne. pose proof (built_hierarchy _ (assembled_built _ Ha)) as Hh.
  assert (Hstep : forall p c, child_of (_states self) p c ->
            dict_get (_parent self) c = Some (Some p) /\ truthy (Some p) = true).
  { intros p c Hc. apply (assembled_child_parent self p c Ha) in Hc. split; auto.
    apply nonempty_truthy. apply Hne. eapply hierarchy_parent_registered; eauto. }
  induction 1 as [s c Hc | s c d Hc Hd IH].
  - destruct (Hstep _ _ Hc) as [Hget Htrue].
    destruct (hierarchy_walk _ Hh c _ Hget) as [l Hl].
    exists (Some s), l. repeat split; auto.
    inversion Hl; subst; [congruence | now left].
  - destruct IH as (v & l & Hv & Hw & Hin).
    exists v, l. repeat split; auto.
    apply in_split in Hin as (l1 & l2 & ->).
    pose proof (walk_suffix _ _ _ _ _ Hw) as Hwc.
    destruct (Hstep _ _ Hc) as [Hget Htrue].
    inversion Hwc as [|? v' ? _ Hget' Hw2]; subst.
    rewrite Hget in Hget'. injection Hget' as <-.
    apply in_or_app. right. right.
    inversion Hw2; subst; [congruence | now left].
Qed.

(** A state on the walk from the parent of [d] has [d] below it. *)
Lemma walk_descendant self :
  assembled self ->
  forall v l, walk (_parent self) v l ->
  forall d s, dict_get (_parent self) d = Some v -> In s l ->
  descendant_of (_states self) s d.
Proof.
  intros Ha. induction 1 as [v Hstop | p v' l Htrue Hget Hw IH]; intros d s Hd Hin.
  - destruct Hin.
  - assert (Hc : child_of (_states self) p d) by now apply assembled_child_parent.
    destruct Hin as [<-|Hin]; [now constructor|].
    eapply descendant_of_snoc; eauto.
Qed.

(** X15: in a chart assembled from new states and without empty names,
    [descendants_for] and [ancestors_for] are converse: a state [d] is in
    the descendants of a registered state [s] exactly when [s] is in the
    ancestors of [d]. *)
Theorem descendants_ancestors self s d :
  assembled self -> nonempty_names self ->
  registered self s ->
  (exists fuel r, descendants_for fuel self s = Some (inr r) /\ In d r)
  <-> (exists fuel l, ancestors_for fuel self d = Some (inr l) /\ In s l).
Proof.
  intros Ha Hne Hs. pose proof (assembled_built _ Ha) as Hb.
  pose proof (built_hierarchy _ Hb) as Hh. split.
  - intros (fuel & r & Hr & Hin). unfold descendants_for in Hr.
    apply (descendants_loop_members _ _ _ _ _ Hr) in Hin as [[]|(w & [<-|[]] & Hdesc)].
    destruct (descendant_on_walk self s d Ha Hne Hdesc) as (v & l & Hv & Hw & Hin).
    exists (length l), l. split; auto.
    unfold ancestors_for. rewrite Hv. now rewrite (walk_loop _ _ _ Hw (length l) []).
  - intros (fuel & l & Hl & Hin). unfold ancestors_for in Hl.
    destruct (dict_get (_parent self) d) as [v|] eqn:Hv; [|discriminate].
    apply loop_walk in Hl as (l' & -> & Hw). simpl in Hin.
    pose proof (walk_descendant self Ha _ _ Hw d s Hv Hin) as Hdesc.
    destruct (descendants_loop_returns (_states self)
                (registry_keys _ (built_registry _ Hb))
                (assembled_children_after self Ha) s Hs) as (fuel' & r & Hr).
    exists fuel', r. split; [apply Hr; auto|].
    apply (descendants_loop_members _ _ _ _ _ (Hr fuel' (le_n _))).
    right. exists s. split; [now left | auto].
Qed.

Lemma descendants_ancestors_witness :
  (exists fuel r, descendants_for fuel example_chart "R" = Some (inr r) /\ In "A1" r)
  <-> (exists fuel l, ancestors_for fuel example_chart "A1" = Some (inr l) /\ In "R" l).
Proof.
  apply (descendants_ancestors example_chart "R" "A1");
    [exact assembled_example_chart | exact nonempty_names_example_chart | reflexivity].
Defined.

(** ** Leaves *)

(** Whether [leaf_for] keeps a state: none of its descendants is in the
    given list. *)
Lemma leaf_loop_spec fuel self states : forall todo leaves r,
  leaf_loop fuel self states todo leaves = Some (inr r) ->
  (forall s, In s todo -> exists ds, descendants_for fuel self s = Some (inr ds))
  /\ r = leaves
         ++ filter (fun s =>
                      match descendants_for fuel self s with
                      | Some (inr ds) => negb (existsb (fun d => str_in d states) ds)
                      | _ => false
                      end) todo.
Proof.
  induction todo as [|state todo IH]; intros leaves r; cbn [leaf_loop filter].
  - intros [= <-]. split; [intros s [] | now rewrite app_nil_r].
  - destruct (descendants_for fuel self state) as [[e|ds]|] eqn:Hds; try discriminate.
    intros Hr. destruct (IH _ _ Hr) as [Hall ->]. split.
    + intros s [<-|Hs]; eauto.
    + destruct (negb (existsb (fun d => str_in d states) ds)); auto.
      now rewrite <- app_assoc.
Qed.

(** X16: when [leaf_for] returns, it returns the states of the given list
    that have no descendant in the list, in the order of the list. *)
Theorem leaf_for_leaves fuel self states r :
  leaf_for fuel self states = Some (inr r) ->
  exists keep, r = filter keep states
    /\ forall s, In s states ->
         (keep s = true <->
          forall d, descendant_of (_states self) s d -> ~ In d states).
Proof.
  unfold leaf_for. intros Hr.
  destruct (leaf_loop_spec _ _ _ _ _ _ Hr) as [Hall ->].
  eexists. split; [reflexivity|]. intros s Hs. cbv beta.
  destruct (Hall s Hs) as [ds Hds]. rewrite Hds.
  assert (Hmem : forall d, In d ds <-> descendant_of (_states self) s d).
  { intros d. unfold descendants_for in Hds.
    rewrite (descendants_loop_members _ _ _ _ _ Hds d). split.
    - intros [[]|(w & [<-|[]] & Hd)]. exact Hd.
    - intros Hd. right. exists s. split; [now left | auto]. }
  rewrite negb_true_iff. split.
  - intros Hnone d Hd Hin. apply Hmem in Hd.
    assert (Hex : existsb (fun d => str_in d states) ds = true).
    { apply existsb_exists. exists d. split; auto. now apply str_in_In. }
    congruence.
  - intros Hnone. destruct (existsb _ ds) eqn:Hex; auto.
    apply existsb_exists in Hex as (d & Hd & Hin). apply str_in_In in Hin.
    exfalso. apply (Hnone d); auto. now apply Hmem.
Qed.

Lemma leaf_for_leaves_witness :
  exists keep, ["A1"; "B"] = filter keep ["R"; "A"; "A1"; "B"]
    /\ forall s, In s ["R"; "A"; "A1"; "B"] ->
         (keep s = true <->
          forall d, descendant_of (_states example_chart) s d ->
                    ~ In d ["R"; "A"; "A1"; "B"]).
Proof.
  apply (leaf_for_leaves 6 example_chart ["R"; "A"; "A1"; "B"]). reflexivity.
Defined.

Lemma assembled_descendants_for self s :
  assembled self -> registered self s ->
  exists n ds, forall fuel, n <= fuel -> descendants_for fuel self s = Some (inr ds).
Proof.
  intros Ha Hs. pose proof (assembled_built _ Ha) as Hb.
  destruct (descendants_loop_returns (_states self)
              (registry_keys _ (built_registry _ Hb))
              (assembled_children_after self Ha) s Hs) as (fuel & r & Hr).
  exists fuel, r. exact Hr.
Qed.

Lemma leaf_loop_returns self states :
  assembled self ->
  forall todo, (forall s, In s todo -> registered self s) ->
  exists n l, forall fuel, n <= fuel -> forall leaves,
    leaf_loop fuel self states todo leaves = Some (inr (leaves ++ l)).
Proof.
  intros Ha. induction todo as [|state todo IH]; intros Hreg.
  - exists 0, []. intros fuel _ leaves. simpl. now rewrite app_nil_r.
  - destruct IH as (n & l & Hl); [intros s Hs; apply Hreg; now right|].
    destruct (assembled_descendants_for self state Ha) as (n0 & ds & Hds);
      [apply Hreg; now left|].
    exists (Nat.max n0 n).
    exists ((if negb (existsb (fun d => str_in d states) ds) then [state] else []) ++ l).
    intros fuel Hfuel leaves. cbn [leaf_loop].
    rewrite Hds by lia. rewrite Hl by lia.
    destruct (negb (existsb (fun d => str_in d states) ds)); simpl.
    + now rewrite <- app_assoc.
    + reflexivity.
Qed.

Lemma leaf_loop_raises self states :
  assembled self ->
  forall l1 z l2,
    (forall s, In s l1 -> registered self s) -> state_for self z = None ->
    exists n, forall fuel, n <= fuel -> forall leaves,
      leaf_loop fuel self states (l1 ++ z :: l2) leaves = Some (inl (KeyError (Some z))).
Proof.
  intros Ha. induction l1 as [|state l1 IH]; intros z l2 Hreg Hz.
  - exists 1. intros fuel Hfuel leaves. destruct fuel as [|fuel]; [lia|].
    cbn [leaf_loop app]. unfold descendants_for, state_for in *.
    now rewrite descendants_loop_step, Hz.
  - destruct (IH z l2) as (n & Hn); [intros s Hs; apply Hreg; now right | auto |].
    destruct (assembled_descendants_for self state Ha) as (n0 & ds & Hds);
      [apply Hreg; now left|].
    exists (Nat.max n0 n). intros fuel Hfuel leaves. cbn [leaf_loop app].
    rewrite Hds by lia. apply Hn. lia.
Qed.

(** X17: in a chart assembled from new states, [leaf_for] returns on a
    list of registered states, given enough iterations, and raises
    [KeyError] for the first name of the list that is not registered. *)
Theorem leaf_for_returns self states :
  assembled self ->
  ((forall s, In s states -> registered self s) ->
   exists r n, forall fuel, n <= fuel -> leaf_for fuel self states = Some (inr r))
  /\ (forall l1 z l2,
        states = l1 ++ z :: l2 ->
        (forall s, In s l1 -> registered self s) -> state_for self z = None ->
        exists n, forall fuel, n <= fuel ->
          leaf_for fuel self states = Some (inl (KeyError (Some z)))).
Proof.
  intros Ha. split.
  - intros Hreg. destruct (leaf_loop_returns self states Ha states Hreg) as (n & l & Hl).
    exists l, n. intros fuel Hfuel. unfold leaf_for. now rewrite Hl.
  - intros l1 z l2 -> Hreg Hz.
    destruct (leaf_loop_raises self (l1 ++ z :: l2) Ha l1 z l2 Hreg Hz) as (n & Hn).
    exists n. intros fuel Hfuel. unfold leaf_for. now apply Hn.
Qed.

Lemma leaf_for_returns_witness :
  (exists r n, forall fuel, n <= fuel ->
     leaf_for fuel example_chart ["A"; "A1"] = Some (inr r))
  /\ exists n, forall fuel, n <= fuel ->
       leaf_for fuel example_chart ["A"; "Z"; "A1"] = Some (inl (KeyError (Some "Z"))).
Proof.
  destruct (leaf_for_returns example_chart ["A"; "A1"] assembled_example_chart) as [H _].
  destruct (leaf_for_returns example_chart ["A"; "Z"; "A1"] assembled_example_chart)
    as [_ H'].
  split.
  - apply H. intros s [<-|[<-|[]]]; reflexivity.
  - apply (H' ["A"] "Z" ["A1"]); [reflexivity | | reflexivity].
    intros s [<-|[]]. reflexivity.
Defined.

(** X18: in a chart assembled from new states and without empty names,
    the only leaf of a registered state together with its ancestors is the
    state itself. *)
Theorem leaf_for_branch self s :
  assembled self -> nonempty_names self -> registered self s ->
  exists l n, forall fuel, n <= fuel ->
    ancestors_for fuel self s = Some (inr l)
    /\ leaf_for fuel self (s :: l) = Some (inr [s]).
Proof.
  intros Ha Hne Hs. pose proof (assembled_built _ Ha) as Hb.
  pose proof (built_hierarchy _ Hb) as Hh.
  destruct (hierarchy_ancestors_for self s Hh Hs) as (v & l & Hv & Hw & Hf).
  assert (Hws : walk (_parent self) (Some s) (s :: l)).
  { econstructor; eauto. apply nonempty_truthy. auto. }
  pose proof (walk_NoDup _ _ _ Hws) as Hnd.
  assert (Hregl : forall a, In a (s :: l) -> registered self a).
  { intros a [<-|Hin]; auto.
    apply in_split in Hin as (l1 & l2 & ->).
    pose proof (walk_suffix _ _ _ _ _ Hw) as Hwa.
    inversion Hwa as [|? v' ? _ Hget _]; subst.
    unfold registered. rewrite <- (hierarchy_keys _ Hh). apply dict_mem_true. eauto. }
  destruct (leaf_loop_returns self (s :: l) Ha (s :: l) Hregl) as (n & r & Hr).
  exists l, (Nat.max n (length l)). intros fuel Hfuel.
  split; [apply Hf; lia|].
  unfold leaf_for. rewrite Hr by lia. cbn [app]. f_equal. f_equal.
  destruct (leaf_loop_spec _ _ _ _ _ _ (Hr fuel ltac:(lia) [])) as [Hall Heq].
  cbn [app filter] in Heq. rewrite Heq. clear Heq.
  assert (Hmem : forall x ds, descendants_for fuel self x = Some (inr ds) ->
             forall d, In d ds <-> descendant_of (_states self) x d).
  { intros x ds Hds d. unfold descendants_for in Hds.
    rewrite (descendants_loop_members _ _ _ _ _ Hds d). split.
    - intros [[]|(w & [<-|[]] & Hd)]. exact Hd.
    - intros Hd. right. exists x. split; [now left | auto]. }
  destruct (Hall s (or_introl eq_refl)) as [ds Hds]. rewrite Hds.
  assert (Hkeep : existsb (fun d => str_in d (s :: l)) ds = false).
  { destruct (existsb _ ds) eqn:Hex; auto. exfalso.
    apply existsb_exists in Hex as (d & Hd & Hin). apply str_in_In in Hin.
    apply (Hmem s ds Hds) in Hd.
    destruct (descendant_on_walk self s d Ha Hne Hd) as (vd & ld & Hvd & Hwd & Hsd).
    inversion Hnd as [|? ? Hnotin _]; subst. apply Hnotin.
    destruct Hin as [<-|Hin].
    - rewrite Hv in Hvd. injection Hvd as <-.
      rewrite (walk_deterministic _ _ _ Hw _ Hwd). exact Hsd.
    - apply in_split in Hin as (l1 & l2 & ->).
      pose proof (walk_suffix _ _ _ _ _ Hw) as Hwa.
      inversion Hwa as [|? v' ? _ Hget Hw2]; subst.
      rewrite Hget in Hvd. injection Hvd as <-.
      rewrite (walk_deterministic _ _ _ Hw2 _ Hwd).
      apply in_or_app. right. now right. }
  rewrite Hkeep. cbn [negb]. f_equal. apply filter_none.
  intros a Ha'. destruct (Hall a (or_intror Ha')) as [da Hda]. rewrite Hda.
  apply negb_false_iff. apply existsb_exists. exists s. split.
  - apply (Hmem a da Hda). exact (walk_descendant self Ha _ _ Hw s a Hv Ha').
  - apply str_in_In. now left.
Qed.

Lemma leaf_for_branch_witness :
  exists l n, forall fuel, n <= fuel ->
    ancestors_for fuel example_chart "A1" = Some (inr l)
    /\ leaf_for fuel example_chart ("A1" :: l) = Some (inr ["A1"]).
Proof.
  apply (leaf_for_branch example_chart "A1");
    [exact assembled_example_chart | exact nonempty_names_example_chart | reflexivity].
Defined.

(** ** Event names *)

Lemma ascii_compare_lt_trans a b c :
  Ascii.compare a b = Lt -> Ascii.compare b c = Lt -> Ascii.compare a c = Lt.
Proof.
  unfold Ascii.compare. rewrite !N.compare_lt_iff. apply N.lt_trans.
Qed.

Lemma ascii_compare_refl a : Ascii.compare a a = Eq.
Proof. unfold Ascii.compare. apply N.compare_refl. Qed.

Lemma string_compare_lt_trans : forall a b c,
  String.compare a b = Lt -> String.compare b c = Lt -> String.compare a c = Lt.
Proof.
  induction a as [|x a IH]; intros [|y b] [|z c]; simpl; try discriminate; auto.
  destruct (Ascii.compare x y) eqn:Hxy; try discriminate;
    destruct (Ascii.compare y z) eqn:Hyz; try discriminate; intros Hab Hbc.
  - apply Ascii.compare_eq_iff in Hxy, Hyz. subst. rewrite ascii_compare_refl. eauto.
  - apply Ascii.compare_eq_iff in Hxy. subst. now rewrite Hyz.
  - apply Ascii.compare_eq_iff in Hyz. subst. now rewrite Hxy.
  - now rewrite (ascii_compare_lt_trans _ _ _ Hxy Hyz).
Qed.

Lemma string_ltb_trans a b c :
  String.ltb a b = true -> String.ltb b c = true -> String.ltb a c = true.
Proof.
  unfold String.ltb.
  destruct (String.compare a b) eqn:Hab; try discriminate.
  destruct (String.compare b c) eqn:Hbc; try discriminate.
  now rewrite (string_compare_lt_trans _ _ _ Hab Hbc).
Qed.

Lemma string_leb_ltb a b : String.leb a b = true -> a <> b -> String.ltb a b = true.
Proof.
  unfold String.leb, String.ltb.
  destruct (String.compare a b) eqn:H; auto; try discriminate.
  apply String.compare_eq_iff in H. congruence.
Qed.

Lemma insert_sorted_In x l y : In y (insert_sorted x l) <-> y = x \/ In y l.
Proof.
  induction l as [|z l IH]; simpl.
  - intuition.
  - destruct (String.leb x z); simpl; rewrite ?IH; intuition.
Qed.

Lemma sorted_In l y : In y (sorted l) <-> In y l.
Proof.
  induction l as [|x l IH]; simpl; [tauto|].
  rewrite insert_sorted_In, IH. intuition.
Qed.

(** Inserting a new string keeps a list strictly increasing. *)
Lemma insert_sorted_increasing x l :
  StronglySorted (fun a b => String.ltb a b = true) l -> ~ In x l ->
  StronglySorted (fun a b => String.ltb a b = true) (insert_sorted x l).
Proof.
  induction 1 as [|z l Hl IH Hz]; intros Hx; simpl.
  - repeat constructor.
  - destruct (String.leb x z) eqn:Hle.
    + assert (Hlt : String.ltb x z = true).
      { apply string_leb_ltb; auto. intros ->. apply Hx. now left. }
      constructor; [now constructor|]. constructor; auto.
      rewrite Forall_forall in *. intros y Hy. eapply string_ltb_trans; eauto.
    + assert (Hlt : String.ltb z x = true).
      { apply string_leb_ltb.
        - destruct (String.leb_total x z); congruence.
        - intros ->. apply Hx. now left. }
      constructor.
      * apply IH. intros H. apply Hx. now right.
      * rewrite Forall_forall in *. intros y Hy.
        apply insert_sorted_In in Hy as [->|Hy]; auto.
Qed.

Lemma sorted_increasing l :
  NoDup l -> StronglySorted (fun a b => String.ltb a b = true) (sorted l).
Proof.
  induction 1 as [|x l Hx Hnd IH]; simpl; [constructor|].
  apply insert_sorted_increasing; auto. now rewrite sorted_In.
Qed.

Lemma set_add_In x names y : In y (set_add x names) <-> y = x \/ In y names.
Proof.
  unfold set_add. destruct (str_in x names) eqn:H.
  - apply str_in_In in H. split; auto. intros [->|]; auto.
  - rewrite in_app_iff. simpl. intuition.
Qed.

Lemma set_add_NoDup x names : NoDup names -> NoDup (set_add x names).
Proof.
  unfold set_add. intros Hnd. destruct (str_in x names) eqn:H; auto.
  apply str_in_not_In in H.
  apply NoDup_rev in Hnd. rewrite <- (rev_involutive (names ++ [x])).
  apply NoDup_rev. rewrite rev_app_distr. simpl. constructor; auto.
  now rewrite <- in_rev.
Qed.

(** The set of names the loop of [events] collects. *)
Lemma events_names states ts : forall names,
  let collected :=
    fold_left
      (fun names transition =>
         match event transition with
         | Some e =>
             if truthy (event transition) && str_in (from_state transition) states
             then set_add e names else names
         | None => names
         end) ts names in
  (NoDup names -> NoDup collected)
  /\ forall e, In e collected <->
       In e names
       \/ (e <> "" /\ exists t, In t ts /\ event t = Some e /\ In (from_state t) states).
Proof.
  induction ts as [|t ts IH]; intros names; cbn [fold_left].
  - split; auto. intros e. split; auto. intros [H|(_ & t & [] & _)]; auto.
  - cbv zeta in IH. cbv zeta.
    destruct (event t) as [e0|] eqn:He0.
    + destruct (truthy (Some e0) && str_in (from_state t) states) eqn:Hc.
      * apply andb_true_iff in Hc as [Htrue Hin]. apply str_in_In in Hin.
        simpl in Htrue. apply negb_true_iff, String.eqb_neq in Htrue.
        destruct (IH (set_add e0 names)) as [Hnd Hmem]. split.
        -- intros H. apply Hnd. now apply set_add_NoDup.
        -- intros e. rewrite Hmem, set_add_In. split.
           ++ intros [[->|H]|(Hne & t' & Ht' & Hev & Hfrom)]; auto.
              ** right. split; auto. exists t. repeat split; auto. now left.
              ** right. split; auto. exists t'. repeat split; auto. now right.
           ++ intros [H|(Hne & t' & [<-|Ht'] & Hev & Hfrom)]; auto.
              ** left. left. congruence.
              ** right. split; auto. exists t'. auto.
      * destruct (IH names) as [Hnd Hmem]. split; auto.
        intros e. rewrite Hmem. split.
        -- intros [H|(Hne & t' & Ht' & Hev & Hfrom)]; auto.
           right. split; auto. exists t'. repeat split; auto. now right.
        -- intros [H|(Hne & t' & [<-|Ht'] & Hev & Hfrom)]; auto.
           ++ exfalso. rewrite He0 in Hev. injection Hev as ->.
              apply andb_false_iff in Hc as [Hc|Hc].
              ** simpl in Hc. apply negb_false_iff, String.eqb_eq in Hc. contradiction.
              ** apply str_in_not_In in Hc. contradiction.
           ++ right. split; auto. exists t'. auto.
    + destruct (IH names) as [Hnd Hmem]. split; auto.
      intros e. rewrite Hmem. split.
      * intros [H|(Hne & t' & Ht' & Hev & Hfrom)]; auto.
        right. split; auto. exists t'. repeat split; auto. now right.
      * intros [H|(Hne & t' & [<-|Ht'] & Hev & Hfrom)]; auto.
        -- congruence.
        -- right. split; auto. exists t'. auto.
Qed.

(** X19: [events] returns a strictly increasing list, hence sorted and
    without duplicates, that holds exactly the non-empty event names of the
    transitions whose source is one of the states asked for. *)
Theorem events_sorted self state_or_states :
  StronglySorted (fun a b => String.ltb a b = true) (events self state_or_states)
  /\ forall e, In e (events self state_or_states) <->
       e <> ""
       /\ exists t, In t (transitions self) /\ event t = Some e
                    /\ In (from_state t) (events_scope self state_or_states).
Proof.
  unfold events. fold (events_scope self state_or_states).
  destruct (events_names (events_scope self state_or_states) (transitions self) [])
    as [Hnd Hmem]. cbv zeta in *. split.
  - apply sorted_increasing. apply Hnd. constructor.
  - intros e. rewrite sorted_In, Hmem. split; [intros [[]|H]; auto | auto].
Qed.

Lemma events_In self state_or_states e :
  In e (events self state_or_states) <->
  e <> ""
  /\ exists t, In t (transitions self) /\ event t = Some e
               /\ In (from_state t) (events_scope self state_or_states).
Proof.
  unfold events. fold (events_scope self state_or_states).
  destruct (events_names (events_scope self state_or_states) (transitions self) [])
    as [_ Hmem]. cbv zeta in *.
  rewrite sorted_In, Hmem. split; [intros [[]|H]; auto | auto].
Qed.

(** X20: on a built chart, [events(None)] holds the non-empty event names
    of all the transitions of the chart, and an event name is in
    [events(None)] exactly when it is in [events(s)] for some state name
    [s]. *)
Theorem events_all self e :
  built self ->
  (In e (events self AllStates) <->
   e <> "" /\ exists t, In t (transitions self) /\ event t = Some e)
  /\ (In e (events self AllStates) <-> exists s, In e (events self (OneState s))).
Proof.
  intros Hb.
  assert (Hall : In e (events self AllStates) <->
                 e <> "" /\ exists t, In t (transitions self) /\ event t = Some e).
  { rewrite events_In. simpl. split.
    - intros (Hne & t & Ht & He & _). eauto.
    - intros (Hne & t & Ht & He). split; auto. exists t. repeat split; auto.
      destruct (registry_transitions _ (built_registry _ Hb) t Ht) as (s & _ & Hs & _).
      apply dict_mem_keys. apply dict_mem_true. eauto. }
  split; auto. rewrite Hall. split.
  - intros (Hne & t & Ht & He). exists (from_state t). apply events_In.
    split; auto. exists t. repeat split; auto. now left.
  - intros (s & Hs). apply events_In in Hs as (Hne & t & Ht & He & _). eauto.
Qed.

Lemma events_all_witness :
  (In "go" (events example_chart AllStates) <->
   "go" <> "" /\ exists t, In t (transitions example_chart) /\ event t = Some "go")
  /\ (In "go" (events example_chart AllStates) <->
      exists s, In "go" (events example_chart (OneState s))).
Proof.
  apply (events_all example_chart "go"). exact built_example_chart.
Defined.

(** ** Stories of silent traces *)






(** The pauses of that trace: the clock goes from 0 to 1.5, stays there at
    the macro step of time 1, and goes on to 2. *)
Example pauses_from_example :
  pauses_from 0 [ {| time := 3 # 2; steps := [] |}; {| time := 1; steps := [] |};
                  {| time := 2; steps := [] |} ]
  = [ (3 # 2) - 0; 2 - (3 # 2) ]%Q.
Proof. reflexivity. Qed.

(** X22: on a built chart rule C1 can only fail through a target: when
    [validate] finds a transition that fails C1, this transition has a
    non-empty target that is not a registered name, its source being
    registered. *)
Theorem built_C1_target self :
  built self -> rule_C1 self = false ->
  exists t target,
    In t (transitions self)
    /\ registered self (from_state t)
    /\ to_state t = Some target /\ target <> ""
    /\ state_for self target = None.
Proof.
  intros Hb H1. unfold rule_C1 in H1.
  assert (Hex : exists t, In t (transitions self) /\ check_C1 self t = false).
  { induction (transitions self) as [|t l IH]; simpl in H1; [discriminate|].
    destruct (check_C1 self t) eqn:Ht.
    - destruct (IH H1) as (t' & Hin & Hc). exists t'. split; [now right | auto].
    - exists t. split; [now left | auto]. }
  destruct Hex as (t & Hin & Hc).
  destruct (registry_transitions _ (built_registry _ Hb) t Hin) as (s & _ & Hs & _).
  assert (Hreg : registered self (from_state t)) by (apply dict_mem_true; eauto).
  unfold check_C1 in Hc. unfold registered in Hreg. rewrite Hreg in Hc. simpl in Hc.
  apply orb_false_iff in Hc as [Htrue Hmem]. apply negb_false_iff in Htrue.
  destruct (to_state t) as [target|] eqn:Hto; [|discriminate].
  exists t, target. repeat split; auto.
  - simpl in Htrue. apply negb_true_iff in Htrue. now apply String.eqb_neq.
  - unfold dict_mem_key in Hmem. simpl in Hmem. unfold state_for.
    destruct (dict_get (_states self) target); [discriminate | auto].
Qed.

Lemma built_C1_target_witness :
  exists t target,
    In t (transitions chart_nowhere)
    /\ registered chart_nowhere (from_state t)
    /\ to_state t = Some target /\ target <> ""
    /\ state_for chart_nowhere target = None.
Proof.
  apply (built_C1_target chart_nowhere); [|reflexivity].
  apply built_snd_register_transition; [exact built_example_chart | reflexivity].
Defined.

Lemma leaf_loop_eval fuel self states : forall todo leaves,
  (forall s, In s todo -> exists ds, descendants_for fuel self s = Some (inr ds)) ->
  leaf_loop fuel self states todo leaves
  = Some (inr (leaves
               ++ filter (fun s =>
                            match descendants_for fuel self s with
                            | Some (inr ds) => negb (existsb (fun d => str_in d states) ds)
                            | _ => false
                            end) todo)).
Proof.
  induction todo as [|state todo IH]; intros leaves Hall; cbn [leaf_loop filter].
  - now rewrite app_nil_r.
  - destruct (Hall state (or_introl eq_refl)) as [ds Hds]. rewrite Hds.
    rewrite IH by (intros s Hs; apply Hall; now right).
    destruct (negb (existsb (fun d => str_in d states) ds)); auto.
    now rewrite <- app_assoc.
Qed.

Lemma filter_all {A : Type} (f : A -> bool) l :
  (forall x, In x l -> f x = true) -> filter f l = l.
Proof.
  induction l as [|a l IH]; simpl; auto.
  intros H. rewrite (H a) by now left. f_equal. apply IH. intros x Hx. apply H. now right.
Qed.

(** X23: [leaf_for] is idempotent: the leaves of a list of leaves are the
    list itself. *)
Theorem leaf_for_idempotent fuel self states r :
  leaf_for fuel self states = Some (inr r) ->
  leaf_for fuel self r = Some (inr r).
Proof.
  unfold leaf_for. intros Hr.
  destruct (leaf_loop_spec _ _ _ _ _ _ Hr) as [Hall Heq]. cbn [app] in Heq.
  assert (Hsub : forall s, In s r ->
             In s states
             /\ exists ds, descendants_for fuel self s = Some (inr ds)
                           /\ existsb (fun d => str_in d states) ds = false).
  { intros s Hs. rewrite Heq in Hs. apply filter_In in Hs as [Hin Hk]. split; auto.
    destruct (Hall s Hin) as [ds Hds]. rewrite Hds in Hk.
    exists ds. split; auto. now apply negb_true_iff. }
  rewrite leaf_loop_eval by (intros s Hs; destruct (Hsub s Hs) as (_ & ds & Hds & _); eauto).
  cbn [app]. f_equal. f_equal. apply filter_all.
  intros s Hs. destruct (Hsub s Hs) as (_ & ds & Hds & Hnone). rewrite Hds.
  apply negb_true_iff. destruct (existsb (fun d => str_in d r) ds) eqn:Hex; auto.
  apply existsb_exists in Hex as (d & Hd & Hin). apply str_in_In in Hin.
  destruct (Hsub d Hin) as [Hin' _].
  assert (Hex : existsb (fun d => str_in d states) ds = true).
  { apply existsb_exists. exists d. split; auto. now apply str_in_In. }
  congruence.
Qed.

Lemma leaf_for_idempotent_witness :
  leaf_for 6 example_chart ["A1"; "B"] = Some (inr ["A1"; "B"]).
Proof.
  apply (leaf_for_idempotent 6 example_chart ["R"; "A"; "A1"; "B"]). reflexivity.
Defined.

(** ** Equality and hashing *)

(** X24: two transitions are equal for [==] exactly when their five fields
    are equal, whatever their contracts hold, and equal transitions have
    the same hash; two events are equal exactly when their names are, and
    equal events have the same hash. *)
Theorem equal_same_hash hash :
  (forall t other,
     (Transition_eq t other = true <->
      from_state t = from_state other /\ to_state t = to_state other
      /\ event t = event other /\ guard t = guard other /\ action t = action other)
     /\ (Transition_eq t other = true ->
         Transition_hash hash t = Transition_hash hash other))
  /\ (forall e other,
        (Event_eq e other = true <-> event_name e = event_name other)
        /\ (Event_eq e other = true -> Event_hash hash e = Event_hash hash other)).
Proof.
  split.
  - intros t other.
    assert (Hiff : Transition_eq t other = true <->
                   from_state t = from_state other /\ to_state t = to_state other
                   /\ event t = event other /\ guard t = guard other
                   /\ action t = action other).
    { unfold Transition_eq. rewrite !andb_true_iff, !optional_str_eqb_eq, String.eqb_eq.
      tauto. }
    split; auto. intros H. apply Hiff in H as (H & _).
    unfold Transition_hash. now rewrite H.
  - intros e other. unfold Event_eq, Event_hash. rewrite String.eqb_eq.
    split; [tauto|]. now intros ->.
Qed.

(** ** Registrations that raise *)



(** X26: a call of [register_transition] whose source is not registered
    raises [KeyError] and leaves the transition in the list of the chart;
    on the chart as this call leaves it, [validate] raises the error of C1
    or of C5. *)
Theorem register_transition_dangling t self :
  state_for self (from_state t) = None ->
  fst (register_transition t self) = inl (KeyError (Some (from_state t)))
  /\ In t (transitions (snd (register_transition t self)))
  /\ (raises_tagged "C1" (validate (snd (register_transition t self)))
      \/ raises_tagged "C5" (validate (snd (register_transition t self)))).
Proof.
  unfold state_for. intros Hnone.
  assert (Hr : register_transition t self
               = (inl (KeyError (Some (from_state t))),
                  with_transitions self (transitions self ++ [t]))).
  { unfold register_transition. simpl. now rewrite Hnone. }
  rewrite Hr. simpl. split; auto. split; [apply in_or_app; right; now left|].
  unfold validate.
  destruct (first_loop_outcome (with_transitions self (transitions self ++ [t]))
              (transitions (with_transitions self (transitions self ++ [t]))))
    as [[He _]|(_ & [Hc|Hc] & _)].
  - exfalso. apply andb_true_iff in He as [H1 _].
    rewrite forallb_forall in H1.
    specialize (H1 t ltac:(simpl; apply in_or_app; right; now left)).
    unfold check_C1 in H1. simpl in H1.
    apply dict_mem_false in Hnone. rewrite Hnone in H1. discriminate.
  - left. now apply raises_tagged_bind.
  - right. now apply raises_tagged_bind.
Qed.

Lemma register_transition_dangling_witness :
  fst (register_transition transition_dangling example_chart) = inl (KeyError (Some "Z"))
  /\ In transition_dangling
        (transitions (snd (register_transition transition_dangling example_chart)))
  /\ (raises_tagged "C1"
        (validate (snd (register_transition transition_dangling example_chart)))
      \/ raises_tagged "C5"
           (validate (snd (register_transition transition_dangling example_chart)))).
Proof.
  apply (register_transition_dangling transition_dangling example_chart). reflexivity.
Defined.

(** ** The order of the descendants *)

Lemma StronglySorted_app {A : Type} (R : A -> A -> Prop) l1 l2 :
  StronglySorted R l1 -> StronglySorted R l2 ->
  (forall a b, In a l1 -> In b l2 -> R a b) ->
  StronglySorted R (l1 ++ l2).
Proof.
  induction 1 as [|a l1 Hl1 IH Ha]; simpl; intros Hl2 Hcross; auto.
  constructor.
  - apply IH; auto.
  - apply Forall_app. split; auto.
    apply Forall_forall. intros b Hb. apply Hcross; auto.
Qed.

Lemma StronglySorted_same {A : Type} (f : A -> nat) n l :
  Forall (fun x => f x = n) l -> StronglySorted (fun a b => f a <= f b) l.
Proof.
  induction 1 as [|a l Ha Hl IH]; constructor; auto.
  rewrite Forall_forall in *. intros b Hb. rewrite Ha, (Hl b Hb). lia.
Qed.

Section BreadthFirst.
Variable states : dict State.
Variable dep : string -> nat.
Hypothesis dep_child : forall p c, child_of states p c -> dep c = S (dep p).

(** The loop works level by level: the states to consider are states of
    one depth followed by states of the next depth, and the descendants
    collected so far are no deeper. *)
Lemma descendants_loop_order fuel : forall todo1 todo2 descendants k r,
  descendants_loop fuel states (todo1 ++ todo2) descendants = Some (inr r) ->
  Forall (fun s => dep s = k) todo1 ->
  Forall (fun s => dep s = S k) todo2 ->
  StronglySorted (fun a b => dep a <= dep b) descendants ->
  Forall (fun d => dep d <= S k) descendants ->
  StronglySorted (fun a b => dep a <= dep b) r
  /\ Forall (fun d => In d descendants \/ S k <= dep d) r.
Proof.
  induction fuel as [|fuel IH]; intros todo1 todo2 descendants k r Hr H1 H2 Hs Hd.
  - destruct todo1, todo2; simpl in Hr; try discriminate.
    injection Hr as <-. split; auto. apply Forall_forall. auto.
  - assert (Hstep : forall h rest1 rest2 j,
               todo1 ++ todo2 = h :: rest1 ++ rest2 ->
               dep h = j -> k <= j ->
               Forall (fun s => dep s = j) rest1 ->
               Forall (fun s => dep s = S j) rest2 ->
               Forall (fun d => dep d <= S j) descendants ->
               StronglySorted (fun a b => dep a <= dep b) r
               /\ Forall (fun d => In d descendants \/ S k <= dep d) r).
    { intros h rest1 rest2 j Heq Hh Hkj Hr1 Hr2 Hdj.
      rewrite Heq, descendants_loop_step in Hr.
      destruct (dict_get states h) as [s|] eqn:Hsh; [|discriminate].
      destruct (children s) as [cs|] eqn:Hcs.
      - assert (Hcsd : Forall (fun c => dep c = S j) cs).
        { apply Forall_forall. intros c Hc. rewrite <- Hh. apply dep_child.
          exists s, cs. auto. }
        rewrite <- app_assoc in Hr.
        destruct (IH rest1 (rest2 ++ cs) (descendants ++ cs) j r Hr) as [Hsorted Hall]; auto.
        + apply Forall_app. auto.
        + apply StronglySorted_app; auto.
          * eapply StronglySorted_same; eauto.
          * intros a b Ha Hb. rewrite Forall_forall in Hdj, Hcsd.
            rewrite (Hcsd b Hb). auto.
        + apply Forall_app. split; auto.
          apply Forall_forall. intros c Hc. rewrite Forall_forall in Hcsd.
          rewrite (Hcsd c Hc). lia.
        + split; auto. rewrite Forall_forall in *. intros d Hd'.
          destruct (Hall d Hd') as [Hin|Hdeep]; [|right; lia].
          apply in_app_or in Hin as [Hin|Hin]; auto.
          right. rewrite (Hcsd d Hin). lia.
      - destruct (IH rest1 rest2 descendants j r Hr) as [Hsorted Hall]; auto.
        split; auto. rewrite Forall_forall in *. intros d Hd'.
        destruct (Hall d Hd') as [Hin|Hdeep]; auto. right. lia. }
    destruct todo1 as [|h todo1].
    + destruct todo2 as [|h todo2].
      * simpl in Hr. injection Hr as <-. split; auto. apply Forall_forall. auto.
      * inversion H2 as [|? ? Hh H2']; subst.
        apply (Hstep h todo2 [] (S k)); auto.
        -- now rewrite app_nil_r.
        -- rewrite Forall_forall in *. intros d Hd'. specialize (Hd d Hd'). lia.
    + inversion H1 as [|? ? Hh H1']; subst.
      apply (Hstep h todo1 todo2 (dep h)); auto.
Qed.
End BreadthFirst.

Lemma walk_registered parents : forall v l,
  walk parents v l -> forall x, In x l -> In x (map fst parents).
Proof.
  induction 1 as [v Hstop | p v' l Htrue Hget Hw IH]; intros x Hx; [destruct Hx|].
  destruct Hx as [<-|Hx]; auto.
  apply dict_mem_keys. apply dict_mem_true. eauto.
Qed.

(** In a built chart without empty names, a state is one level deeper than
    its parent. *)
Lemma depth_parent self c p :
  built self -> nonempty_names self ->
  dict_get (_parent self) c = Some (Some p) ->
  depth self c = S (depth self p).
Proof.
  intros Hb Hne Hc. pose proof (built_hierarchy _ Hb) as Hh.
  assert (Hp : p <> "").
  { apply Hne. eapply hierarchy_parent_registered; eauto. }
  assert (Hcn : c <> "").
  { apply Hne. unfold registered. rewrite <- (hierarchy_keys _ Hh).
    apply dict_mem_true. eauto. }
  destruct (hierarchy_walk _ Hh c _ Hc) as [l0 Hw].
  inversion Hw as [? Hstop | ? v l _ Hget Hw']; subst.
  { rewrite nonempty_truthy in Hstop by auto. discriminate. }
  assert (Hwc : walk (_parent self) (Some c) (c :: p :: l)).
  { econstructor; eauto. now apply nonempty_truthy. }
  assert (Hlen : length (c :: p :: l) <= length (_parent self)).
  { rewrite <- (length_map fst (_parent self)).
    apply NoDup_incl_length.
    - eapply walk_NoDup; eauto.
    - intros x Hx. eapply walk_registered; eauto. }
  simpl in Hlen. unfold depth, depth_for, ancestors_for. rewrite Hc, Hget.
  rewrite (walk_loop _ _ _ Hw _ []) by (simpl; lia).
  rewrite (walk_loop _ _ _ Hw' _ []) by lia.
  simpl. lia.
Qed.

(** X27: in a chart assembled from new states and without empty names,
    the list [descendants_for] returns is ordered by increasing depth, and
    every state of the list is deeper than the state asked for. *)
Theorem descendants_for_order fuel self state r :
  assembled self -> nonempty_names self ->
  descendants_for fuel self state = Some (inr r) ->
  StronglySorted (fun a b => depth self a <= depth self b) r
  /\ Forall (fun d => depth self state < depth self d) r.
Proof.
  intros Ha Hne Hr. unfold descendants_for in Hr.
  destruct (descendants_loop_order (_states self) (depth self)) with
    (fuel := fuel) (todo1 := [state]) (todo2 := @nil string)
    (descendants := @nil string) (k := depth self state) (r := r)
    as [Hsorted Hall]; auto.
  - intros p c Hc. apply (assembled_child_parent self p c Ha) in Hc.
    apply depth_parent; auto. now apply assembled_built.
  - constructor.
  - split; auto. rewrite Forall_forall in *. intros d Hd.
    destruct (Hall d Hd) as [[]|H]. lia.
Qed.

Lemma descendants_for_order_witness :
  StronglySorted (fun a b => depth example_chart a <= depth example_chart b)
                 ["A"; "B"; "A1"; "A2"; "B1"]
  /\ Forall (fun d => depth example_chart "R" < depth example_chart d)
            ["A"; "B"; "A1"; "A2"; "B1"].
Proof.
  apply (descendants_for_order 6 example_chart "R");
    [exact assembled_example_chart | exact nonempty_names_example_chart | reflexivity].
Defined.

(** ** No state is listed twice among the descendants *)

Section OnceEach.
Variable states : dict State.
Variable rank : string -> nat.
Variable start : string.
Hypothesis rank_child : forall p c, child_of states p c -> rank p < rank c.
Hypothesis one_parent : forall p p' c, child_of states p c -> child_of states p' c -> p = p'.
Hypothesis children_NoDup :
  forall p s cs, dict_get states p = Some s -> children s = Some cs -> NoDup cs.

Lemma NoDup_app_intro {A : Type} (l1 l2 : list A) :
  NoDup l1 -> NoDup l2 -> (forall x, In x l1 -> ~ In x l2) -> NoDup (l1 ++ l2).
Proof.
  induction 1 as [|a l1 Ha Hl1 IH]; simpl; intros Hl2 Hd; auto.
  constructor.
  - intros Hin. apply in_app_or in Hin as [Hin|Hin]; [contradiction|].
    apply (Hd a); auto.
  - apply IH; auto.
Qed.

Lemma once_each_step h todo descendants s cs :
  once_each states rank start (h :: todo) descendants ->
  dict_get states h = Some s -> children s = Some cs ->
  once_each states rank start (todo ++ cs) (descendants ++ cs).
Proof.
  intros [Hd Ht Hpend Hknown Hrank Hdone] Hs Hcs.
  assert (Hch : forall c, In c cs -> child_of states h c).
  { intros c Hc. exists s, cs. auto. }
  assert (Hcsnd : NoDup cs) by (eapply children_NoDup; eauto).
  inversion Ht as [|? ? Hh Ht']; subst.
  assert (Hfresh : forall c, In c cs -> ~ In c descendants).
  { intros c Hc. apply (Hpend h c); [now left | auto]. }
  assert (Hnostart : forall c, In c cs -> c <> start).
  { intros c Hc ->. pose proof (rank_child _ _ (Hch _ Hc)).
    pose proof (Hrank h (or_introl eq_refl)). lia. }
  assert (Hnotodo : forall c, In c cs -> ~ In c todo).
  { intros c Hc Hin. destruct (Hknown c (or_intror Hin)) as [H| ->].
    - now apply (Hfresh c).
    - now apply (Hnostart start). }
  assert (Hself : ~ In h cs).
  { intros Hin. pose proof (rank_child _ _ (Hch _ Hin)). lia. }
  constructor.
  - apply NoDup_app_intro; auto. intros x Hx Hc. now apply (Hfresh x).
  - apply NoDup_app_intro; auto. intros x Hx Hc. now apply (Hnotodo x).
  - intros w c Hw Hwc Hin.
    apply in_app_or in Hw as [Hw|Hw]; apply in_app_or in Hin as [Hin|Hin].
    + now apply (Hpend w c (or_intror Hw) Hwc).
    + rewrite (one_parent _ _ _ Hwc (Hch _ Hin)) in Hw. contradiction.
    + destruct (Hdone c w Hin Hwc) as [[Hwd| ->] _].
      * now apply (Hfresh w).
      * now apply (Hnostart start).
    + rewrite (one_parent _ _ _ Hwc (Hch _ Hin)) in Hw. contradiction.
  - intros w Hw. apply in_app_or in Hw as [Hw|Hw].
    + destruct (Hknown w (or_intror Hw)) as [H|H]; auto.
      left. apply in_or_app. now left.
    + left. apply in_or_app. now right.
  - intros w Hw. apply in_app_or in Hw as [Hw|Hw].
    + apply Hrank. now right.
    + pose proof (rank_child _ _ (Hch _ Hw)).
      pose proof (Hrank h (or_introl eq_refl)). lia.
  - intros d p Hd' Hpd. apply in_app_or in Hd' as [Hd'|Hd'].
    + destruct (Hdone d p Hd' Hpd) as [Hp Hnot]. split.
      * destruct Hp as [Hp|Hp]; auto. left. apply in_or_app. now left.
      * intros Hin. apply in_app_or in Hin as [Hin|Hin].
        -- apply Hnot. now right.
        -- destruct Hp as [Hp| ->].
           ++ now apply (Hfresh p).
           ++ now apply (Hnostart start).
    + rewrite (one_parent _ _ _ Hpd (Hch _ Hd')). split.
      * destruct (Hknown h (or_introl eq_refl)) as [H|H]; auto.
        left. apply in_or_app. now left.
      * intros Hin. apply in_app_or in Hin as [Hin|Hin]; contradiction.
Qed.

Lemma once_each_skip h todo descendants :
  once_each states rank start (h :: todo) descendants -> once_each states rank start todo descendants.
Proof.
  intros [Hd Ht Hpend Hknown Hrank Hdone].
  inversion Ht; subst. constructor; auto.
  - intros w c Hw. apply Hpend. now right.
  - intros w Hw. apply Hknown. now right.
  - intros w Hw. apply Hrank. now right.
  - intros d p Hd' Hpd. destruct (Hdone d p Hd' Hpd) as [Hp Hnot]. split; auto.
    intros Hin. apply Hnot. now right.
Qed.

Lemma descendants_loop_once fuel : forall todo descendants r,
  descendants_loop fuel states todo descendants = Some (inr r) ->
  once_each states rank start todo descendants -> NoDup r.
Proof.
  induction fuel as [|fuel IH]; intros todo descendants r Hr Hinv.
  - destruct todo; simpl in Hr; [|discriminate]. injection Hr as <-.
    apply (once_descendants _ _ _ _ _ Hinv).
  - destruct todo as [|h todo].
    + simpl in Hr. injection Hr as <-. apply (once_descendants _ _ _ _ _ Hinv).
    + rewrite descendants_loop_step in Hr.
      destruct (dict_get states h) as [s|] eqn:Hs; [|discriminate].
      destruct (children s) as [cs|] eqn:Hcs.
      * eapply IH; eauto. eapply once_each_step; eauto.
      * eapply IH; eauto. eapply once_each_skip; eauto.
Qed.

Lemma once_each_start : once_each states rank start [start] [].
Proof.
  constructor.
  - constructor.
  - constructor; [intros [] | constructor].
  - intros w c _ _ [].
  - intros w [<-|[]]. now right.
  - intros w [<-|[]]. lia.
  - intros d p [].
Qed.
End OnceEach.

Lemma position_app x pre l :
  ~ In x pre -> position x (pre ++ l) = length pre + position x l.
Proof.
  induction pre as [|y pre IH]; simpl; auto.
  intros H. destruct (String.eqb_spec y x) as [->|Hne]; [exfalso; auto|].
  rewrite IH; auto.
Qed.

(** In a chart assembled from new states a child comes after its parent in
    the order of registration. *)
Lemma assembled_position self p c :
  assembled self -> child_of (_states self) p c ->
  position p (map fst (_states self)) < position c (map fst (_states self)).
Proof.
  intros Ha Hc.
  pose proof (registry_keys _ (built_registry _ (assembled_built _ Ha))) as Hnd.
  assert (Hp : In p (map fst (_states self))).
  { destruct Hc as (s & cs & Hs & _). apply dict_mem_keys. apply dict_mem_true. eauto. }
  apply in_split in Hp as (pre & suf & Hkeys).
  pose proof (assembled_children_after self Ha pre p suf Hkeys c Hc) as Hsuf.
  rewrite Hkeys in *.
  assert (Hppre : ~ In p pre).
  { apply NoDup_remove_2 in Hnd. intros H. apply Hnd. apply in_or_app. now left. }
  assert (Hcpre : ~ In c pre).
  { intros H. apply in_split in H as (a & b & ->). rewrite <- app_assoc in Hnd.
    simpl in Hnd. apply NoDup_remove_2 in Hnd. apply Hnd.
    apply in_or_app. right. apply in_or_app. right. now right. }
  assert (Hcp : p <> c).
  { intros ->. apply NoDup_remove_2 in Hnd. apply Hnd. apply in_or_app. now right. }
  rewrite !position_app by auto. simpl. rewrite String.eqb_refl.
  apply String.eqb_neq in Hcp. rewrite Hcp. lia.
Qed.

(** X28: in a chart assembled from new states, [descendants_for] lists no
    state twice, and does not list the state asked for. *)
Theorem descendants_for_once fuel self state r :
  assembled self ->
  descendants_for fuel self state = Some (inr r) ->
  NoDup r /\ ~ In state r.
Proof.
  intros Ha Hr. pose proof (assembled_built _ Ha) as Hb.
  assert (Hrank : forall p c, child_of (_states self) p c ->
            position p (map fst (_states self)) < position c (map fst (_states self))).
  { intros p c. now apply assembled_position. }
  split.
  - unfold descendants_for in Hr.
    apply (descendants_loop_once (_states self)
             (fun s => position s (map fst (_states self))) state) with
      (fuel := fuel) (todo := [state]) (descendants := @nil string); auto.
    + intros p p' c Hp Hp'.
      apply (assembled_child_parent self p c Ha) in Hp.
      apply (assembled_child_parent self p' c Ha) in Hp'. congruence.
    + intros p s cs Hs Hcs.
      rewrite (proj1 (assembled_mirror _ Ha) p s cs Hs Hcs).
      apply children_of_NoDup. rewrite (built_parent_keys _ Hb).
      apply (registry_keys _ (built_registry _ Hb)).
    + apply once_each_start.
  - intros Hin. unfold descendants_for in Hr.
    apply (descendants_loop_members _ _ _ _ _ Hr) in Hin as [[]|(w & [<-|[]] & Hd)].
    assert (Hlt : forall a b, descendant_of (_states self) a b ->
              position a (map fst (_states self)) < position b (map fst (_states self))).
    { induction 1 as [a b Hc | a c b Hc Hd' IH].
      - now apply Hrank.
      - pose proof (Hrank _ _ Hc). lia. }
    pose proof (Hlt _ _ Hd). lia.
Qed.

Lemma descendants_for_once_witness :
  NoDup ["A"; "B"; "A1"; "A2"; "B1"] /\ ~ In "R" ["A"; "B"; "A1"; "A2"; "B1"].
Proof.
  apply (descendants_for_once 6 example_chart "R");
    [exact assembled_example_chart | reflexivity].
Defined.
